(** * VirtuWeb — src/components/ui/Globe.tsx

    A shallow embedding of the data-preparation logic of the globe
    component: the coordinate validator ([isValidCoordinate], [isValidLat],
    [isValidLng]), the configuration merge ([defaultProps]), the arc builder
    ([_buildData]), the colour parser ([hexToRgb]) and the random sampler
    ([genRandomNumbers]).

    Conventions of the embedding.
    - A JavaScript [number] is an IEEE-754 binary64 value: [spec_float] of
      the Standard Library with precision 53 and maximal exponent 1024.
      The sampler works on integers and on a fraction in [0, 1), and its
      arithmetic is exact: [Z] and [Q].
    - A JavaScript string is a [string]; a character is one code unit
      below 256.
    - An object used as a bag of named options is a [gmap string value].
    - An array is a [list]; a [Set] is the list of its elements in
      insertion order. *)

From Stdlib Require Import ZArith QArith Qround Qpower Ascii String List Bool Lia.
From Stdlib Require Import Floats.SpecFloat.
From stdpp Require Import base list strings gmap.

Local Open Scope string_scope.
Local Open Scope list_scope.
Local Open Scope Z_scope.

(* ===================================================================== *)
(** * Part I — the program                                                *)
(* ===================================================================== *)

(** ** Numbers *)

Module Number.

Definition number : Type := spec_float.

Definition prec : Z := 53.
Definition emax : Z := 1024.

(** The number denoted by an integer literal (round to nearest even). *)
Definition of_Z (z : Z) : number := binary_normalize prec emax z 0 false.

Definition NaN : number := S754_nan.

(** [Number.isNaN(x)] *)
Definition isNaN (x : number) : bool :=
  match x with S754_nan => true | _ => false end.

(** [x <= y], [x === y] and [x - y] on numbers. *)
Definition leb (x y : number) : bool := SFleb x y.
Definition strict_eq (x y : number) : bool := SFeqb x y.
Definition sub (x y : number) : number := SFsub prec emax x y.

(** The number denoted by the decimal literal [n / 10^k]: the quotient is
    rounded to nearest even, as the literal is. *)
Definition decimal (n : Z) (k : nat) : number :=
  SFdiv prec emax (of_Z n) (of_Z (10 ^ Z.of_nat k)).

(** The exact rational value of a finite number. *)
Definition to_Q (x : number) : option Q :=
  match x with
  | S754_zero _ => Some 0%Q
  | S754_finite s m e =>
      Some (inject_Z (if s then Z.neg m else Z.pos m) * Qpower 2 e)%Q
  | _ => None
  end.

(** The well-formed values: the mantissa of a finite number is canonical
    and its exponent is in range. *)
Definition is_binary64 (x : number) : bool := valid_binary prec emax x.

End Number.

Module Math.
(** [Math.abs(x)] *)
Definition abs (x : Number.number) : Number.number := SFabs x.
(** [Math.floor(x)], on an exact rational. *)
Definition floor (x : Q) : Z := Qfloor x.
End Math.

Abbreviation number := Number.number.

(** ** Coordinate validator (Globe.tsx, lines 31–34) *)

Definition isValidCoordinate (value max : number) : bool :=
  negb (Number.isNaN value) && Number.leb (Math.abs value) max.

Definition isValidLat (lat : number) : bool :=
  isValidCoordinate lat (Number.of_Z 90).

Definition isValidLng (lng : number) : bool :=
  isValidCoordinate lng (Number.of_Z 180).

(** ** Characters *)

Module Char.

(** The code unit of a character. *)
Definition code (c : ascii) : Z := Z.of_N (N_of_ascii c).
Definition of_code (z : Z) : ascii := ascii_of_N (Z.to_N z).

Definition between (lo hi c : ascii) : bool :=
  (code lo <=? code c) && (code c <=? code hi).

(** ASCII case mapping; code units from 128 on are left alone, as the
    case-insensitive matcher of a non-unicode regular expression never
    identifies them with an ASCII character. *)
Definition toUpperCase (c : ascii) : ascii :=
  if between "a" "z" c then of_code (code c - 32) else c.
Definition toLowerCase (c : ascii) : ascii :=
  if between "A" "Z" c then of_code (code c + 32) else c.

(** Every code unit. *)
Definition all : list ascii :=
  List.map (fun n => ascii_of_nat n) (seq 0 256).

(** [StrWhiteSpaceChar]: TAB, LF, VT, FF, CR, SP, NBSP. *)
Definition isWhiteSpace (c : ascii) : bool :=
  let n := code c in
  ((9 <=? n) && (n <=? 13)) || (n =? 32) || (n =? 160).

End Char.

Fixpoint string_map (f : ascii -> ascii) (s : string) : string :=
  match s with
  | EmptyString => EmptyString
  | String c s' => String (f c) (string_map f s')
  end.

(** [s.toLowerCase()] on ASCII letters. *)
Definition toLowerCase (s : string) : string := string_map Char.toLowerCase s.

(** ** Regular expressions

    The fragment of the pattern language used by the two literals of
    [hexToRgb], with the backtracking semantics of the language: a matcher
    takes a continuation and a state, and a greedy [?] first tries to
    consume. *)

Module RegExp.

Inductive pattern : Type :=
| Bol                                     (* ^ *)
| Eol                                     (* $ *)
| Chr (c : ascii)                         (* a literal character *)
| Class (ranges : list (ascii * ascii))   (* [x-y...]; \d is 0-9 *)
| Opt (p : pattern)                       (* p? *)
| Rep (n : nat) (p : pattern)             (* p{n} *)
| Group (i : nat) (p : pattern)           (* ( p ), the i-th group *)
| Seq (p q : pattern).

Record regexp := { source : pattern; ignoreCase : bool }.

Record state := mkState {
  pos : nat;                     (* index of the next character *)
  rest : string;                 (* input from [pos] on *)
  caps : list (nat * string)     (* captures, most recent first *)
}.

Definition cont : Type := state -> option state.

(** [Canonicalize] of the language: upper case when [ignoreCase]. *)
Definition canonicalize (ic : bool) (c : ascii) : ascii :=
  if ic then Char.toUpperCase c else c.

Definition class_has (ranges : list (ascii * ascii)) (c : ascii) : bool :=
  existsb (fun lh => Char.between (fst lh) (snd lh) c) ranges.

(** A character matches a set when some member of the set has the same
    canonical form. *)
Definition class_matches (ic : bool) (ranges : list (ascii * ascii)) (c : ascii) : bool :=
  existsb (fun a => class_has ranges a &&
                    Ascii.eqb (canonicalize ic a) (canonicalize ic c)) Char.all.

Definition char_matches (ic : bool) (a c : ascii) : bool :=
  Ascii.eqb (canonicalize ic a) (canonicalize ic c).

Definition step (ok : ascii -> bool) (k : cont) (st : state) : option state :=
  match rest st with
  | String c r => if ok c then k (mkState (S (pos st)) r (caps st)) else None
  | EmptyString => None
  end.

Fixpoint repeat (n : nat) (m : cont -> cont) (k : cont) : cont :=
  match n with
  | O => k
  | S n' => m (repeat n' m k)
  end.

Fixpoint matcher (ic : bool) (p : pattern) (k : cont) (st : state) : option state :=
  match p with
  | Bol => if Nat.eqb (pos st) 0 then k st else None
  | Eol => match rest st with EmptyString => k st | _ => None end
  | Chr a => step (char_matches ic a) k st
  | Class ranges => step (class_matches ic ranges) k st
  | Opt q =>
      match matcher ic q k st with
      | Some st' => Some st'
      | None => k st
      end
  | Rep n q => repeat n (matcher ic q) k st
  | Group i q =>
      matcher ic q
        (fun st' =>
           k (mkState (pos st') (rest st')
                ((i, substring 0 (pos st' - pos st) (rest st)) :: caps st')))
        st
  | Seq q1 q2 => matcher ic q1 (matcher ic q2 k) st
  end.

(** The result of a successful match. *)
Record result := mkResult {
  index : nat;                 (* where the match starts *)
  matched : string;            (* result[0] *)
  suffix : string;             (* the input after the match *)
  groups : list (nat * string)
}.

Fixpoint lookup_group (i : nat) (l : list (nat * string)) : option string :=
  match l with
  | [] => None
  | (j, s) :: l' => if Nat.eqb i j then Some s else lookup_group i l'
  end.

(** [result[i]] for [i >= 1]; a group that took no part in the match is
    [undefined] in the source, [None] here. *)
Definition group (r : result) (i : nat) : option string :=
  lookup_group i (groups r).

(** Try the pattern at [i], then at every later index. *)
Fixpoint search (re : regexp) (i : nat) (s : string) : option result :=
  match matcher (ignoreCase re) (source re) Some (mkState i s []) with
  | Some st =>
      Some (mkResult i (substring 0 (pos st - i) s) (rest st) (caps st))
  | None =>
      match s with
      | EmptyString => None
      | String _ s' => search re (S i) s'
      end
  end.

(** [re.exec(s)] for a regular expression without the [g] and [y] flags. *)
Definition exec (re : regexp) (s : string) : option result := search re 0 s.

(** [s.replace(re, f)] for such a regular expression: the first match is
    replaced by the value of the callback. *)
Definition replace (s : string) (re : regexp) (f : result -> string) : string :=
  match exec re s with
  | None => s
  | Some r => (substring 0 (index r) s ++ f r ++ suffix r)%string
  end.

End RegExp.

(** ** [parseInt(string, radix)] *)

Module ParseInt.

(** The value of a character as a digit: 0-9, then a-z or A-Z for 10-35. *)
Definition digit (c : ascii) : option Z :=
  if Char.between "0" "9" c then Some (Char.code c - 48)
  else if Char.between "a" "z" c then Some (Char.code c - 87)
  else if Char.between "A" "Z" c then Some (Char.code c - 55)
  else None.

Fixpoint trimStart (s : string) : string :=
  match s with
  | String c s' => if Char.isWhiteSpace c then trimStart s' else s
  | EmptyString => s
  end.

(** The longest prefix of digits of the radix, read from the left; [None]
    when that prefix is empty. *)
Fixpoint digits (radix : Z) (acc : option Z) (s : string) : option Z :=
  match s with
  | String c s' =>
      match digit c with
      | Some d =>
          if d <? radix
          then digits radix (Some (radix * default 0 acc + d)) s'
          else acc
      | None => acc
      end
  | EmptyString => acc
  end.

Definition stripSign (s : string) : bool * string :=
  match s with
  | String c s' =>
      if Ascii.eqb c "-" then (true, s')
      else if Ascii.eqb c "+" then (false, s')
      else (false, s)
  | EmptyString => (false, s)
  end.

(** Does the string start with [0x] or [0X]? *)
Definition hasPrefix (s : string) : bool :=
  match s with
  | String c (String d _) => Ascii.eqb c "0" && (Ascii.eqb d "x" || Ascii.eqb d "X")
  | _ => false
  end.

Definition dropPrefix (s : string) : string :=
  match s with
  | String _ (String _ s') => s'
  | _ => s
  end.

(** The sign and the magnitude that [parseInt] reads, or [None] for NaN.
    The radix is an integer; 0 stands for an absent radix. *)
Definition mathInt (s : string) (radix : Z) : option (bool * Z) :=
  let '(neg, s1) := stripSign (trimStart s) in
  if negb (radix =? 0) && ((radix <? 2) || (36 <? radix)) then None
  else
    let stripPrefix := (radix =? 0) || (radix =? 16) in
    let R := if radix =? 0 then 10 else radix in
    let '(R, s2) :=
      if stripPrefix && hasPrefix s1 then (16, dropPrefix s1) else (R, s1) in
    option_map (pair neg) (digits R None s2).

Definition toNumber (r : option (bool * Z)) : number :=
  match r with
  | None => Number.NaN
  | Some (neg, 0) => S754_zero neg
  | Some (neg, z) => Number.of_Z (if neg then - z else z)
  end.

End ParseInt.

Definition parseInt (s : string) (radix : Z) : number :=
  ParseInt.toNumber (ParseInt.mathInt s radix).

(** ** Completions: [try { ... } catch { ... }] *)

Inductive completion (A : Type) : Type :=
| Normal (a : A)
| Throw (e : string).
Arguments Normal {A} a.
Arguments Throw {A} e.

Definition try_catch {A : Type} (body : completion A) (handler : A) : A :=
  match body with
  | Normal a => a
  | Throw _ => handler
  end.

(** ** Colour parser (Globe.tsx, lines 303–320) *)

Module RGB.
Record t := mk { r : number; g : number; b : number }.
End RGB.

Definition hexDigit : RegExp.pattern :=
  RegExp.Class [("a", "f"); ("0", "9")]%char.

(** [/^#?([a-f\d])([a-f\d])([a-f\d])$/i] *)
Definition shorthandRegex : RegExp.regexp :=
  {| RegExp.source :=
       RegExp.Seq RegExp.Bol
         (RegExp.Seq (RegExp.Opt (RegExp.Chr "#"))
            (RegExp.Seq (RegExp.Group 1 hexDigit)
               (RegExp.Seq (RegExp.Group 2 hexDigit)
                  (RegExp.Seq (RegExp.Group 3 hexDigit) RegExp.Eol))));
     RegExp.ignoreCase := true |}.

(** [/^#?([a-f\d]{2})([a-f\d]{2})([a-f\d]{2})$/i] *)
Definition fullRegex : RegExp.regexp :=
  {| RegExp.source :=
       RegExp.Seq RegExp.Bol
         (RegExp.Seq (RegExp.Opt (RegExp.Chr "#"))
            (RegExp.Seq (RegExp.Group 1 (RegExp.Rep 2 hexDigit))
               (RegExp.Seq (RegExp.Group 2 (RegExp.Rep 2 hexDigit))
                  (RegExp.Seq (RegExp.Group 3 (RegExp.Rep 2 hexDigit)) RegExp.Eol))));
     RegExp.ignoreCase := true |}.

Definition fallback : RGB.t :=
  {| RGB.r := Number.of_Z 255; RGB.g := Number.of_Z 255; RGB.b := Number.of_Z 255 |}.

(** The callback [(m, r, g, b) => r + r + g + g + b + b]. The three groups
    take part in every match of [shorthandRegex], so the arguments are
    strings and [+] is concatenation. *)
Definition double_digits (m : RegExp.result) : string :=
  let r := default "" (RegExp.group m 1) in
  let g := default "" (RegExp.group m 2) in
  let b := default "" (RegExp.group m 3) in
  (r ++ r ++ g ++ g ++ b ++ b)%string.

(** The body of the [try] block. *)
Definition hexToRgb_try (hex : string) : completion RGB.t :=
  let hex := RegExp.replace hex shorthandRegex double_digits in
  let result := RegExp.exec fullRegex hex in
  Normal
    match result with
    | Some res =>
        {| RGB.r := parseInt (default "" (RegExp.group res 1)) 16;
           RGB.g := parseInt (default "" (RegExp.group res 2)) 16;
           RGB.b := parseInt (default "" (RegExp.group res 3)) 16 |}
    | None => fallback
    end.

Definition hexToRgb (hex : string) : RGB.t :=
  try_catch (hexToRgb_try hex) fallback.

(** ** Configuration (Globe.tsx, lines 46–70 and 91–106) *)

(** The values that the options of [GlobeConfig] take at run time. An
    option may be present with the value [undefined]. *)
Inductive value : Type :=
| VUndefined
| VNumber (x : number)
| VString (s : string)
| VBoolean (b : bool)
| VLatLng (lat lng : number).        (* [initialPosition: {lat, lng}] *)

(** An object literal: the properties are defined in order, a later one
    replacing an earlier one of the same name. *)
Definition object_literal (props : list (string * value)) : gmap string value :=
  foldl (fun o kv => <[fst kv := snd kv]> o) ∅ props.

(** [{...target, ...source}]: every own property of [source] is copied
    onto [target]. *)
Definition spread (target source : gmap string value) : gmap string value :=
  source ∪ target.

(** [o.k]: a property that is absent reads as [undefined]. *)
Definition get (o : gmap string value) (k : string) : value :=
  default VUndefined (o !! k).

Definition defaults : gmap string value :=
  object_literal
    [ ("pointSize", VNumber (Number.of_Z 1));
      ("atmosphereColor", VString "#ffffff");
      ("showAtmosphere", VBoolean true);
      ("atmosphereAltitude", VNumber (Number.decimal 1 1));
      ("polygonColor", VString "rgba(255,255,255,0.7)");
      ("globeColor", VString "#1d072e");
      ("emissive", VString "#000000");
      ("emissiveIntensity", VNumber (Number.decimal 1 1));
      ("shininess", VNumber (Number.decimal 9 1));
      ("arcTime", VNumber (Number.of_Z 2000));
      ("arcLength", VNumber (Number.decimal 9 1));
      ("rings", VNumber (Number.of_Z 1));
      ("maxRings", VNumber (Number.of_Z 3)) ].

Definition defaultProps (globeConfig : gmap string value) : gmap string value :=
  spread defaults globeConfig.

(** The names that have a default. *)
Definition default_names : list string :=
  [ "pointSize"; "atmosphereColor"; "showAtmosphere"; "atmosphereAltitude";
    "polygonColor"; "globeColor"; "emissive"; "emissiveIntensity";
    "shininess"; "arcTime"; "arcLength"; "rings"; "maxRings" ].

(** ** Arcs and points (Globe.tsx, lines 36–44 and 78–87) *)

Module Position.
Record t := mk {
  order : number;
  startLat : number;
  startLng : number;
  endLat : number;
  endLng : number;
  arcAlt : number;
  color : string
}.
End Position.

Module Point.
Record t := mk {
  size : value;
  order : number;
  color : number -> string;
  lat : number;
  lng : number
}.
End Point.

(** ** Array methods *)

Module Array.

Section Methods.
Context {A : Type}.

(** [a.findIndex(p)]: the index of the first element that satisfies
    [p], or -1. *)
Fixpoint findIndex_from (p : A -> bool) (i : Z) (a : list A) : Z :=
  match a with
  | [] => -1
  | x :: a' => if p x then i else findIndex_from p (i + 1) a'
  end.

Definition findIndex (p : A -> bool) (a : list A) : Z := findIndex_from p 0 a.

(** [a.filter((v, i, a) => f(v, i, a))] *)
Fixpoint filter_from (f : A -> Z -> bool) (i : Z) (l : list A) : list A :=
  match l with
  | [] => []
  | x :: l' =>
      if f x i then x :: filter_from f (i + 1) l' else filter_from f (i + 1) l'
  end.

Definition filter (f : A -> Z -> list A -> bool) (a : list A) : list A :=
  filter_from (fun v i => f v i a) 0 a.

End Methods.

End Array.

(** ** Arc builder (Globe.tsx, lines 130–167) *)

(** The predicate of [data.filter(...)]. *)
Definition isValidArc (arc : Position.t) : bool :=
  isValidLat (Position.startLat arc) &&
  isValidLng (Position.startLng arc) &&
  isValidLat (Position.endLat arc) &&
  isValidLng (Position.endLng arc).

(** [v2.lat === v.lat && v2.lng === v.lng] *)
Definition sameCoordinates (v2 v : Point.t) : bool :=
  Number.strict_eq (Point.lat v2) (Point.lat v) &&
  Number.strict_eq (Point.lng v2) (Point.lng v).

Section ArcBuilder.

(** The conversion of a number to a string in a template literal. It is
    a primitive of the language, not part of the component. *)
Variable NumberToString : number -> string.

(** [(t) => `rgba(${rgb.r}, ${rgb.g}, ${rgb.b}, ${1 - t})`] *)
Definition colorAt (rgb : RGB.t) (t : number) : string :=
  ("rgba(" ++ NumberToString (RGB.r rgb) ++ ", "
           ++ NumberToString (RGB.g rgb) ++ ", "
           ++ NumberToString (RGB.b rgb) ++ ", "
           ++ NumberToString (Number.sub (Number.of_Z 1) t) ++ ")")%string.

(** The callback of [validArcs.flatMap(...)]. *)
Definition arcPoints (props : gmap string value) (arc : Position.t) : list Point.t :=
  let rgb := hexToRgb (Position.color arc) in
  [ {| Point.size := get props "pointSize";
       Point.order := Position.order arc;
       Point.color := fun t => colorAt rgb t;
       Point.lat := Position.startLat arc;
       Point.lng := Position.startLng arc |};
    {| Point.size := get props "pointSize";
       Point.order := Position.order arc;
       Point.color := fun t => colorAt rgb t;
       Point.lat := Position.endLat arc;
       Point.lng := Position.endLng arc |} ].

Definition validArcs (data : list Position.t) : list Position.t :=
  List.filter isValidArc data.

Definition points (globeConfig : gmap string value) (data : list Position.t)
  : list Point.t :=
  flat_map (arcPoints (defaultProps globeConfig)) (validArcs data).

(** The function publishes its result with [setGlobeData(filteredPoints)]
    and has no other effect; the embedding returns that list. *)
Definition _buildData (globeConfig : gmap string value) (data : list Position.t)
  : list Point.t :=
  let filteredPoints :=
    Array.filter
      (fun v i a => Array.findIndex (fun v2 => sameCoordinates v2 v) a =? i)
      (List.filter (fun v => isValidLat (Point.lat v) && isValidLng (Point.lng v))
         (points globeConfig data)) in
  filteredPoints.

End ArcBuilder.

(** ** Vocabulary of the statements about numbers *)

(** The value of a positive finite number with mantissa [m] and exponent
    [e]. *)
Definition magnitude (m : positive) (e : Z) : Q :=
  (inject_Z (Z.pos m) * Qpower 2 e)%Q.

(** Both zeros are one value for [===]. *)
Definition unsigned_zero (x : number) : number :=
  match x with
  | S754_zero _ => S754_zero false
  | _ => x
  end.

(** A coordinate fails validation for the bound [b]: it is NaN, or below
    [-b], or above [b]. *)
Definition fails_validation (b : Z) (x : number) : Prop :=
  Number.isNaN x = true \/
  Number.leb (Number.of_Z (- b)) x = false \/
  Number.leb x (Number.of_Z b) = false.

(** ** Vocabulary of the statements about points *)

(** The distinct elements of a list in the order of their first
    occurrence, for a test [same] of two elements. *)
Fixpoint first_occurrences {A : Type} (same : A -> A -> bool)
    (seen l : list A) : list A :=
  match l with
  | [] => []
  | x :: l' =>
      if existsb (fun y => same y x) seen
      then first_occurrences same (seen ++ [x]) l'
      else x :: first_occurrences same (seen ++ [x]) l'
  end.

(** How many points of a list lie at a coordinate pair. *)
Definition occurrences (lat lng : number) (l : list Point.t) : nat :=
  length (List.filter
            (fun v => Number.strict_eq (Point.lat v) lat &&
                      Number.strict_eq (Point.lng v) lng) l).

(** The test of the defensive filter on points. *)
Definition isValidPoint (v : Point.t) : bool :=
  isValidLat (Point.lat v) && isValidLng (Point.lng v).

(** ** Random sampler (Globe.tsx, lines 322–329)

    The arguments are integers and [Math.random()] is a fraction in
    [0, 1); the product, the floor and the sum are taken exactly, on
    rationals and integers. The random source is the sequence of the values
    that the successive calls of [Math.random()] return. The [while] loop
    may run forever: the loop takes a bound on the number of iterations and
    returns [None] when the bound is reached. *)

Module JSet.
(** A [Set<number>] of integers, in insertion order. *)
Definition t : Type := list Z.
Definition empty : t := [].
Definition has (x : Z) (s : t) : bool := existsb (Z.eqb x) s.
Definition add (x : Z) (s : t) : t := if has x s then s else s ++ [x].
Definition size (s : t) : Z := Z.of_nat (length s).
(** [Array.from(s)] *)
Definition to_array (s : t) : list Z := s.
End JSet.

(** [Math.floor(Math.random() * (max - min + 1)) + min], for the value [u]
    of [Math.random()]. *)
Definition pick (u : Q) (min max : Z) : Z :=
  Math.floor (u * inject_Z (max - min + 1)) + min.

Fixpoint sample_loop (fuel : nat) (random : nat -> Q) (min max count : Z)
    (calls : nat) (arr : JSet.t) : option JSet.t :=
  if JSet.size arr <? count then
    match fuel with
    | O => None
    | S fuel' =>
        let r := pick (random calls) min max in
        sample_loop fuel' random min max count (S calls) (JSet.add r arr)
    end
  else Some arr.

Definition genRandomNumbers (fuel : nat) (random : nat -> Q) (min max count : Z)
  : option (list Z) :=
  option_map JSet.to_array (sample_loop fuel random min max count 0 JSet.empty).

(** ** Vocabulary of the statements about the sampler *)

(** The contract of [Math.random()]. *)
Definition unit_interval (random : nat -> Q) : Prop :=
  forall i, (0 <= random i)%Q /\ (random i < 1)%Q.

(** The first [k] integers drawn. *)
Definition draws (random : nat -> Q) (min max : Z) (k : nat) : list Z :=
  List.map (fun i => pick (random i) min max) (seq 0 k).

(** The distinct elements of a list of integers in the order of their
    first occurrence. *)
Definition first_seen (l : list Z) : list Z :=
  rev (nodup Z.eq_dec (rev l)).

(** The source draws every integer of the range at some point, as a
    uniform source does with probability one. *)
Definition covers (random : nat -> Q) (min max : Z) : Prop :=
  forall z, min <= z <= max -> exists i, pick (random i) min max = z.

(** The integers of [min, max]. *)
Definition range (min max : Z) : list Z :=
  List.map (fun k => min + Z.of_nat k) (seq 0 (Z.to_nat (max - min + 1))).

(** The set after the draws of a list, one after the other. *)
Definition added (l : list Z) : JSet.t :=
  fold_left (fun s r => JSet.add r s) l JSet.empty.

(** A source that walks through the fifths: 0, 1/5, 2/5, 3/5, 4/5, 0, ... *)
Definition fifths (i : nat) : Q := Qmake (Z.of_nat i mod 5) 5.

(** ** Vocabulary of the statements about colours *)

Definition isHexDigit (c : ascii) : bool :=
  Char.between "0" "9" c || Char.between "a" "f" c || Char.between "A" "F" c.

(** The value of a hexadecimal digit. *)
Definition hexValue (c : ascii) : Z := default 0 (ParseInt.digit c).

(** The string without its leading [#], when it has one. *)
Definition strip_hash (s : string) : string :=
  match s with
  | String c s' => if Ascii.eqb c "#" then s' else s
  | EmptyString => s
  end.

Definition starts_with_hash (s : string) : bool :=
  match s with
  | String c _ => Ascii.eqb c "#"
  | EmptyString => false
  end.

Fixpoint all_hex (s : string) : bool :=
  match s with
  | String c s' => isHexDigit c && all_hex s'
  | EmptyString => true
  end.

(** The [n]-digit hex form: an optional [#], then exactly [n] hex digits. *)
Definition is_hex_form (n : nat) (s : string) : bool :=
  Nat.eqb (String.length (strip_hash s)) n && all_hex (strip_hash s).

(** The number written by two hex digits. *)
Definition byte_of (hi lo : ascii) : Z := 16 * hexValue hi + hexValue lo.

(** Exactly three, respectively six, hex digits. *)
Definition three_hex (s : string) : option (ascii * ascii * ascii) :=
  match s with
  | String a (String b (String c EmptyString)) =>
      if isHexDigit a && isHexDigit b && isHexDigit c then Some (a, b, c) else None
  | _ => None
  end.

Definition six_hex (s : string)
  : option ((ascii * ascii) * (ascii * ascii) * (ascii * ascii)) :=
  match s with
  | String a (String b (String c (String d (String e (String f EmptyString))))) =>
      if isHexDigit a && isHexDigit b && isHexDigit c &&
         isHexDigit d && isHexDigit e && isHexDigit f
      then Some ((a, b), (c, d), (e, f)) else None
  | _ => None
  end.

Definition rgb_of_bytes (r g b : Z) : RGB.t :=
  {| RGB.r := Number.of_Z r; RGB.g := Number.of_Z g; RGB.b := Number.of_Z b |}.

(** ** Further primitives of the language *)

(** [-x] *)
Definition negate (x : number) : number := SFopp x.

(** [ToBoolean] of a number: NaN and both zeros are falsy. *)
Definition truthy (x : number) : bool :=
  match x with
  | S754_nan | S754_zero _ => false
  | _ => true
  end.

(** [x || y] on numbers. *)
Definition or_else (x y : number) : number := if truthy x then x else y.

(** [a[i]]: an index outside the array reads as [undefined], [None] here. *)
Definition at_index {A : Type} (a : list A) (i : Z) : option A :=
  if i <? 0 then None else a !! Z.to_nat i.

(** [a.includes(x)] on an array of integers. *)
Definition includes (a : list Z) (x : Z) : bool := existsb (Z.eqb x) a.

(** ** Animation set-up (Globe.tsx, lines 190–230) *)

(** [validData]: the arcs handed to [arcsData]. *)
Definition validData (data : list Position.t) : list Position.t :=
  List.filter
    (fun arc =>
       isValidLat (Position.startLat arc) &&
       isValidLng (Position.startLng arc) &&
       isValidLat (Position.endLat arc) &&
       isValidLng (Position.endLng arc))
    data.

(** [(d) => d.arcAlt || 0] *)
Definition arcAltitude (d : Position.t) : number :=
  or_else (Position.arcAlt d) (Number.of_Z 0).

(** [() => [0.32, 0.28, 0.3][Math.floor(Math.random() * 3)]], for the value
    [u] of [Math.random()]. *)
Definition arcStroke (u : Q) : option number :=
  at_index [Number.decimal 32 2; Number.decimal 28 2; Number.decimal 3 1]
    (Math.floor (u * inject_Z 3)).

(** [(d) => d.color(0)] *)
Definition pointColor (d : Point.t) : string := Point.color d (Number.of_Z 0).

(** ** Ring refresh (Globe.tsx, lines 232–250)

    The callback of [setInterval], for a non-null [globeData]. The
    arithmetic on the length is exact, as in the sampler. *)

Definition ringIndexes (fuel : nat) (random : nat -> Q) (globeData : list Point.t)
  : option (list Z) :=
  let len := Z.of_nat (length globeData) in
  genRandomNumbers fuel random 0 (len - 1)
    (Math.floor (inject_Z (len * 4) / inject_Z 5)).

(** The argument of [ringsData], or [None] when the sampler does not
    return within the bound. *)
Definition ringsData (fuel : nat) (random : nat -> Q) (globeData : list Point.t)
  : option (list Point.t) :=
  option_map
    (fun indexes => Array.filter (fun _ i _ => includes indexes i) globeData)
    (ringIndexes fuel random globeData).

(** ** Vocabulary of the further statements *)

(** A number has a value: it is neither NaN nor an infinity. *)
Definition isFinite (x : number) : bool :=
  match x with
  | S754_zero _ | S754_finite _ _ _ => true
  | _ => false
  end.

(** The start and the end point of an arc lie at these coordinates. *)
Definition lies_at (p : Point.t) (lat lng : number) : bool :=
  Number.strict_eq (Point.lat p) lat && Number.strict_eq (Point.lng p) lng.

(** A lower-case hex digit for every value below 16. *)
Definition digit_of (z : Z) : ascii :=
  if z <? 10 then Char.of_code (48 + z) else Char.of_code (87 + z).

(* ===================================================================== *)
(** * Part II — properties                                                *)
(* ===================================================================== *)

(** ** Coordinate validator *)

Section Validator.

(** The literals are the expected binary64 values. *)
Lemma of_Z_90 :
  exists q, Number.to_Q (Number.of_Z 90) = Some q /\ Qeq q (inject_Z 90).
Proof. eexists. split; [reflexivity | vm_compute; reflexivity]. Qed.

Lemma of_Z_180 :
  exists q, Number.to_Q (Number.of_Z 180) = Some q /\ Qeq q (inject_Z 180).
Proof. eexists. split; [reflexivity | vm_compute; reflexivity]. Qed.

(** For a positive finite bound, [|v| <= max] is the two-sided test. *)
Lemma abs_leb_two_sided (v : number) (m : positive) (e : Z) :
  Number.leb (Math.abs v) (S754_finite false m e) = true <->
  Number.leb (S754_finite true m e) v = true /\
  Number.leb v (S754_finite false m e) = true.
Proof.
  unfold Number.leb, Math.abs, SFleb.
  destruct v as [s | s | | s m' e']; simpl.
  - destruct s; intuition.
  - destruct s; intuition discriminate.
  - intuition discriminate.
  - destruct s; simpl.
    + rewrite (Z.compare_antisym e' e).
      change (Pos.compare_cont Eq m m') with (Pos.compare_cont (CompOpp Eq) m m').
      rewrite <- (Pos.compare_cont_antisym m' m Eq).
      destruct (e' ?= e); simpl;
        try destruct (Pos.compare_cont Eq m' m); simpl; intuition discriminate.
    + destruct (e' ?= e); simpl;
        try destruct (Pos.compare_cont Eq m' m); simpl; intuition discriminate.
Qed.

Lemma isValidLat_spec (v : number) :
  isValidLat v = true <->
  Number.isNaN v = false /\
  Number.leb (Number.of_Z (-90)) v = true /\ Number.leb v (Number.of_Z 90) = true.
Proof.
  unfold isValidLat, isValidCoordinate.
  rewrite andb_true_iff, negb_true_iff.
  change (Number.of_Z 90) with (S754_finite false 6333186975989760 (-46)).
  change (Number.of_Z (-90)) with (S754_finite true 6333186975989760 (-46)).
  now rewrite abs_leb_two_sided.
Qed.

Lemma isValidLng_spec (v : number) :
  isValidLng v = true <->
  Number.isNaN v = false /\
  Number.leb (Number.of_Z (-180)) v = true /\ Number.leb v (Number.of_Z 180) = true.
Proof.
  unfold isValidLng, isValidCoordinate.
  rewrite andb_true_iff, negb_true_iff.
  change (Number.of_Z 180) with (S754_finite false 6333186975989760 (-45)).
  change (Number.of_Z (-180)) with (S754_finite true 6333186975989760 (-45)).
  now rewrite abs_leb_two_sided.
Qed.

End Validator.

(** ** The order of numbers and the order of their values *)

Section Binary64.

Lemma digits2_pos_bounds (m : positive) :
  2 ^ (Z.pos (digits2_pos m) - 1) <= Z.pos m < 2 ^ Z.pos (digits2_pos m).
Proof.
  induction m as [p IH | p IH |]; simpl digits2_pos; [| | simpl; lia];
    rewrite Pos2Z.inj_succ; set (d := Z.pos (digits2_pos p)) in *;
    replace (Z.succ d - 1) with (Z.succ (d - 1)) by lia;
    rewrite !Z.pow_succ_r by lia;
    assert (2 ^ d = 2 * 2 ^ (d - 1))
      by (rewrite <- Z.pow_succ_r by lia; f_equal; lia);
    lia.
Qed.

(** A canonical mantissa has at most 53 bits, and exactly 53 above the
    least exponent. *)
Lemma bounded_inv (m : positive) (e : Z) :
  bounded Number.prec Number.emax m e = true ->
  Z.pos m < 2 ^ 53 /\ -1074 <= e /\ (-1074 < e -> 2 ^ 52 <= Z.pos m).
Proof.
  unfold bounded, canonical_mantissa, fexp, emin, Number.prec, Number.emax.
  intros [H _]%andb_true_iff. apply Z.eqb_eq in H.
  pose proof (digits2_pos_bounds m) as [Hlo Hhi].
  set (d := Z.pos (digits2_pos m)) in *.
  split; [| split].
  - apply Z.lt_le_trans with (2 ^ d); [assumption |].
    apply Z.pow_le_mono_r; lia.
  - lia.
  - intros He. replace 52 with (d - 1) by lia. assumption.
Qed.

Lemma two_power_pos (e : Z) : (0 < Qpower 2 e)%Q.
Proof. now apply Qpower_0_lt. Qed.

Lemma magnitude_pos (m : positive) (e : Z) : (0 < magnitude m e)%Q.
Proof.
  unfold magnitude. apply Qmult_lt_0_compat; [| apply two_power_pos].
  unfold Qlt. simpl. lia.
Qed.

(** The smaller exponent belongs to the smaller number. *)
Lemma magnitude_lt (m1 m2 : positive) (e1 e2 : Z) :
  bounded Number.prec Number.emax m1 e1 = true ->
  bounded Number.prec Number.emax m2 e2 = true ->
  e1 < e2 -> (magnitude m1 e1 < magnitude m2 e2)%Q.
Proof.
  intros (H1 & H1e & _)%bounded_inv (_ & _ & H2)%bounded_inv He.
  specialize (H2 ltac:(lia)).
  unfold magnitude.
  assert (E : Qeq (Qpower 2 e2) (inject_Z (2 ^ (e2 - e1)) * Qpower 2 e1)%Q).
  { replace e2 with ((e2 - e1) + e1) at 1 by lia.
    rewrite Qpower_plus by discriminate.
    now rewrite (Zpower_Qpower 2 (e2 - e1)) by lia. }
  rewrite E, Qmult_assoc, <- inject_Z_mult.
  apply Qmult_lt_compat_r; [apply two_power_pos |].
  rewrite <- Zlt_Qlt.
  assert (2 ^ 1 <= 2 ^ (e2 - e1)) by (apply Z.pow_le_mono_r; lia).
  change (2 ^ 1) with 2 in *. change (2 ^ 53) with (2 * 2 ^ 52) in H1.
  nia.
Qed.

(** [<=] on positive finite numbers is [<=] on their values. *)
Lemma leb_magnitude (m1 m2 : positive) (e1 e2 : Z) :
  bounded Number.prec Number.emax m1 e1 = true ->
  bounded Number.prec Number.emax m2 e2 = true ->
  Number.leb (S754_finite false m1 e1) (S754_finite false m2 e2) = true <->
  (magnitude m1 e1 <= magnitude m2 e2)%Q.
Proof.
  intros B1 B2. unfold Number.leb, SFleb. simpl.
  destruct (Z.compare_spec e1 e2) as [-> | Hlt | Hgt].
  - fold (Pos.compare m1 m2). unfold magnitude.
    rewrite Qmult_le_r by apply two_power_pos. rewrite <- Zle_Qle.
    destruct (Pos.compare_spec m1 m2) as [-> | H | H];
      (split; [intros Hc; first [discriminate Hc | lia]
              | intros H'; first [reflexivity | lia]]).
  - split; [intros _ | reflexivity].
    now apply Qlt_le_weak, magnitude_lt.
  - split; [discriminate |]. intros H.
    pose proof (magnitude_lt m2 m1 e2 e1 B2 B1 Hgt) as H'.
    exfalso. apply (Qlt_not_le _ _ H'). exact H.
Qed.

Lemma to_Q_negative (m : positive) (e : Z) :
  Qeq (inject_Z (Z.neg m) * Qpower 2 e)%Q (- magnitude m e)%Q.
Proof.
  unfold magnitude. change (Z.neg m) with (- Z.pos m).
  rewrite inject_Z_opp. ring.
Qed.

(** For a well-formed number and a positive finite bound, the test of
    [isValidCoordinate] is the two-sided test on the value. *)
Lemma isValidCoordinate_value (v : number) (M : positive) (E : Z) :
  Number.is_binary64 v = true ->
  bounded Number.prec Number.emax M E = true ->
  isValidCoordinate v (S754_finite false M E) = true <->
  exists q, Number.to_Q v = Some q /\
            (- magnitude M E <= q)%Q /\ (q <= magnitude M E)%Q.
Proof.
  intros Hv HB. pose proof (magnitude_pos M E) as HM.
  unfold isValidCoordinate.
  destruct v as [s | s | | s m e]; simpl.
  - split; [intros _ | reflexivity].
    exists 0%Q. split; [reflexivity |]. split.
    + apply Qlt_le_weak. rewrite <- (Qopp_involutive 0).
      now apply Qopp_lt_compat.
    + now apply Qlt_le_weak.
  - split; [discriminate | intros (q & [=] & _)].
  - split; [discriminate | intros (q & [=] & _)].
  - change (SFleb (S754_finite false m e) (S754_finite false M E))
      with (Number.leb (S754_finite false m e) (S754_finite false M E)).
    rewrite (leb_magnitude m M e E Hv HB).
    pose proof (magnitude_pos m e) as Hm.
    destruct s.
    + split.
      * intros H. eexists. split; [reflexivity |].
        rewrite to_Q_negative. split.
        -- now apply Qopp_le_compat.
        -- apply Qlt_le_weak, Qlt_trans with 0%Q; [| assumption].
           rewrite <- (Qopp_involutive 0). now apply Qopp_lt_compat.
      * intros (q & [= <-] & H1 & _). rewrite to_Q_negative in H1.
        apply Qopp_le_compat in H1. now rewrite !Qopp_involutive in H1.
    + split.
      * intros H. eexists. split; [reflexivity |].
        fold (magnitude m e). split; [| assumption].
        apply Qlt_le_weak, Qlt_trans with 0%Q; [| assumption].
        rewrite <- (Qopp_involutive 0). now apply Qopp_lt_compat.
      * now intros (q & [= <-] & _ & H2).
Qed.

(** The same for a bound that is an integer literal. *)
Lemma isValidCoordinate_bound (v : number) (b : Z) (M : positive) (E : Z) :
  Number.of_Z b = S754_finite false M E ->
  bounded Number.prec Number.emax M E = true ->
  Qeq (magnitude M E) (inject_Z b) ->
  Number.is_binary64 v = true ->
  isValidCoordinate v (Number.of_Z b) = true <->
  exists q, Number.to_Q v = Some q /\
            (inject_Z (- b) <= q)%Q /\ (q <= inject_Z b)%Q.
Proof.
  intros -> HB Hb Hv. rewrite (isValidCoordinate_value v M E Hv HB).
  assert (A1 : (magnitude M E <= inject_Z b)%Q)
    by (apply Qle_lteq; now right).
  assert (A2 : (inject_Z b <= magnitude M E)%Q)
    by (apply Qle_lteq; right; now symmetry).
  change (inject_Z (- b)) with (- inject_Z b)%Q.
  pose proof (Qopp_le_compat _ _ A1) as A3.
  pose proof (Qopp_le_compat _ _ A2) as A4.
  split; intros (q & Hq & H1 & H2); exists q; (split; [assumption |]);
    split; eauto using Qle_trans.
Qed.

Lemma isValidLat_value (v : number) :
  Number.is_binary64 v = true ->
  isValidLat v = true <->
  exists q, Number.to_Q v = Some q /\
            (inject_Z (-90) <= q)%Q /\ (q <= inject_Z 90)%Q.
Proof.
  apply (isValidCoordinate_bound v 90 6333186975989760 (-46));
    [reflexivity | reflexivity | vm_compute; reflexivity].
Qed.

Lemma isValidLng_value (v : number) :
  Number.is_binary64 v = true ->
  isValidLng v = true <->
  exists q, Number.to_Q v = Some q /\
            (inject_Z (-180) <= q)%Q /\ (q <= inject_Z 180)%Q.
Proof.
  apply (isValidCoordinate_bound v 180 6333186975989760 (-45));
    [reflexivity | reflexivity | vm_compute; reflexivity].
Qed.

End Binary64.

(** C1. For every number [v], [isValidLat v] is [true] exactly when [v] is
    not NaN and [-90 <= v <= 90], and [isValidLng v] is [true] exactly when
    [v] is not NaN and [-180 <= v <= 180]; for a well-formed binary64
    number the comparisons are those of the exact values, so the test holds
    exactly when [v] has a value and it lies between the bounds. Both
    functions are total functions to [bool]: they are pure and raise no
    error on any numeric input. *)
Theorem C1_validator_iff_in_range (v : number) :
  (isValidLat v = true <->
     Number.isNaN v = false /\
     Number.leb (Number.of_Z (-90)) v = true /\
     Number.leb v (Number.of_Z 90) = true) /\
  (isValidLng v = true <->
     Number.isNaN v = false /\
     Number.leb (Number.of_Z (-180)) v = true /\
     Number.leb v (Number.of_Z 180) = true) /\
  (Number.is_binary64 v = true ->
     (isValidLat v = true <->
        exists q, Number.to_Q v = Some q /\
                  (inject_Z (-90) <= q)%Q /\ (q <= inject_Z 90)%Q) /\
     (isValidLng v = true <->
        exists q, Number.to_Q v = Some q /\
                  (inject_Z (-180) <= q)%Q /\ (q <= inject_Z 180)%Q)).
Proof.
  split; [apply isValidLat_spec |].
  split; [apply isValidLng_spec |].
  intros Hv. split; [now apply isValidLat_value | now apply isValidLng_value].
Qed.

Lemma C1_witness : isValidLat (Number.of_Z 45) = true.
Proof.
  apply (proj1 (proj2 (proj2 (C1_validator_iff_in_range (Number.of_Z 45)))
                  eq_refl)).
  eexists. split; [reflexivity |]. split; vm_compute; discriminate.
Defined.

(** ** Characters and regular expressions *)

Section Characters.

Lemma In_all_chars (c : ascii) : In c Char.all.
Proof.
  unfold Char.all. rewrite <- (ascii_nat_embedding c).
  apply in_map, in_seq. pose proof (nat_ascii_bounded c). lia.
Qed.

Lemma forall_chars (P : ascii -> bool) :
  forallb P Char.all = true -> forall c, P c = true.
Proof. intros H c. rewrite forallb_forall in H. apply H, In_all_chars. Qed.

Lemma forall_chars2 (P : ascii -> ascii -> bool) :
  forallb (fun a => forallb (P a) Char.all) Char.all = true ->
  forall a b, P a b = true.
Proof. intros H a b. apply forall_chars. revert a. now apply forall_chars. Qed.

Lemma implb_elim (a b : bool) : implb a b = true -> a = true -> b = true.
Proof. destruct a, b; simpl; congruence. Qed.

Lemma class_matches_hexDigit (c : ascii) :
  RegExp.class_matches true [("a", "f"); ("0", "9")]%char c = isHexDigit c.
Proof.
  apply eqb_prop. revert c. apply forall_chars. vm_compute. reflexivity.
Qed.

Lemma char_matches_hash (c : ascii) :
  RegExp.char_matches true "#" c = Ascii.eqb c "#".
Proof.
  apply eqb_prop. revert c. apply forall_chars. vm_compute. reflexivity.
Qed.

Lemma isHexDigit_not_hash (c : ascii) :
  isHexDigit c = true -> Ascii.eqb c "#" = false.
Proof.
  intros H. destruct (Ascii.eqb_spec c "#") as [-> |]; [discriminate | reflexivity].
Qed.

Lemma isHexDigit_toLowerCase (c : ascii) :
  isHexDigit (Char.toLowerCase c) = isHexDigit c.
Proof.
  apply eqb_prop. revert c. apply forall_chars. vm_compute. reflexivity.
Qed.

Lemma hexValue_toLowerCase (c : ascii) :
  isHexDigit c = true -> hexValue (Char.toLowerCase c) = hexValue c.
Proof.
  intros H. apply Z.eqb_eq. revert H. apply implb_elim. revert c.
  apply forall_chars. vm_compute. reflexivity.
Qed.

End Characters.

Section Matching.

Import RegExp.

(** A pattern that starts with [^] matches at index 0 or nowhere. *)
Lemma search_anchored (re : regexp) (p : pattern) (i : nat) (s : string) :
  source re = Seq Bol p -> i <> 0%nat -> search re i s = None.
Proof.
  intros Hre. revert i.
  induction s as [|c s IH]; intros i Hi; simpl; rewrite Hre; simpl;
    destruct (Nat.eqb_spec i 0); try contradiction; auto.
Qed.

Lemma exec_anchored (re : regexp) (p : pattern) (s : string) :
  source re = Seq Bol p ->
  exec re s =
    match matcher (ignoreCase re) p Some (mkState 0 s []) with
    | Some st => Some (mkResult 0 (substring 0 (pos st - 0) s) (rest st) (caps st))
    | None => None
    end.
Proof.
  intros Hre. unfold exec.
  destruct s as [|c s]; simpl; rewrite Hre; simpl.
  - now destruct (matcher _ p Some _).
  - destruct (matcher _ p Some _); [reflexivity |].
    now apply (search_anchored re p).
Qed.

Local Arguments class_matches : simpl never.
Local Arguments char_matches : simpl never.
Local Arguments isHexDigit : simpl never.

Local Ltac hex_cases :=
  repeat match goal with
    | |- context [Ascii.eqb ?c "#"] =>
        let E := fresh "E" in
        destruct (Ascii.eqb_spec c "#") as [E | E]; [subst c |]; cbn
    | |- context [isHexDigit ?c] =>
        let E := fresh "E" in destruct (isHexDigit c) eqn:E; cbn
    | H : isHexDigit "#" = true |- _ => discriminate H
    end; try reflexivity.

Lemma exec_shorthandRegex (s : string) :
  exec shorthandRegex s =
    match three_hex (strip_hash s) with
    | Some (a, b, c) =>
        Some (mkResult 0 s ""
                [(3%nat, String c ""); (2%nat, String b ""); (1%nat, String a "")])
    | None => None
    end.
Proof.
  rewrite (exec_anchored shorthandRegex _ s eq_refl).
  destruct s as [|a1 [|a2 [|a3 [|a4 [|a5 s]]]]]; cbn;
    rewrite ?class_matches_hexDigit, ?char_matches_hash; cbn; hex_cases.
Qed.

Lemma exec_fullRegex (s : string) :
  exec fullRegex s =
    match six_hex (strip_hash s) with
    | Some ((a, b), (c, d), (e, f)) =>
        Some (mkResult 0 s ""
                [(3%nat, String e (String f ""));
                 (2%nat, String c (String d ""));
                 (1%nat, String a (String b ""))])
    | None => None
    end.
Proof.
  rewrite (exec_anchored fullRegex _ s eq_refl).
  destruct s as [|a1 [|a2 [|a3 [|a4 [|a5 [|a6 [|a7 [|a8 s]]]]]]]]; cbn;
    rewrite ?class_matches_hexDigit, ?char_matches_hash; cbn; hex_cases.
Qed.

(** Two hex digits read in radix 16. *)
Lemma mathInt_two_hex (a b : ascii) :
  isHexDigit a = true -> isHexDigit b = true ->
  ParseInt.mathInt (String a (String b "")) 16 = Some (false, byte_of a b).
Proof.
  intros Ha Hb.
  assert (H : implb (isHexDigit a && isHexDigit b)
                match ParseInt.mathInt (String a (String b "")) 16 with
                | Some (false, z) => z =? byte_of a b
                | _ => false
                end = true).
  { revert a b Ha Hb. intros a b _ _. revert a b.
    apply forall_chars2. vm_compute. reflexivity. }
  rewrite Ha, Hb in H. simpl in H.
  destruct (ParseInt.mathInt _ 16) as [[[] z]|]; try discriminate.
  apply Z.eqb_eq in H. now subst.
Qed.

Lemma hexValue_range (a : ascii) : isHexDigit a = true -> 0 <= hexValue a <= 15.
Proof.
  intros Ha.
  assert (H : implb (isHexDigit a) ((0 <=? hexValue a) && (hexValue a <=? 15)) = true).
  { clear Ha. revert a. apply forall_chars. vm_compute. reflexivity. }
  rewrite Ha in H. simpl in H. lia.
Qed.

Lemma byte_of_range (a b : ascii) :
  isHexDigit a = true -> isHexDigit b = true -> 0 <= byte_of a b <= 255.
Proof.
  intros Ha%hexValue_range Hb%hexValue_range. unfold byte_of. lia.
Qed.

Lemma toNumber_nonneg (z : Z) : ParseInt.toNumber (Some (false, z)) = Number.of_Z z.
Proof. now destruct z. Qed.

Lemma parseInt_two_hex (a b : ascii) :
  isHexDigit a = true -> isHexDigit b = true ->
  parseInt (String a (String b "")) 16 = Number.of_Z (byte_of a b).
Proof.
  intros Ha Hb. unfold parseInt.
  now rewrite (mathInt_two_hex a b Ha Hb), toNumber_nonneg.
Qed.

Lemma three_hex_Some (s : string) (a b c : ascii) :
  three_hex s = Some (a, b, c) ->
  s = String a (String b (String c "")) /\
  isHexDigit a = true /\ isHexDigit b = true /\ isHexDigit c = true.
Proof.
  destruct s as [|a1 [|a2 [|a3 [|a4 s]]]]; simpl; try discriminate.
  destruct (isHexDigit a1) eqn:E1, (isHexDigit a2) eqn:E2,
    (isHexDigit a3) eqn:E3; simpl; try discriminate.
  now intros [= <- <- <-].
Qed.

Lemma six_hex_Some (s : string) (a b c d e f : ascii) :
  six_hex s = Some ((a, b), (c, d), (e, f)) ->
  s = String a (String b (String c (String d (String e (String f ""))))) /\
  (isHexDigit a = true /\ isHexDigit b = true) /\
  (isHexDigit c = true /\ isHexDigit d = true) /\
  (isHexDigit e = true /\ isHexDigit f = true).
Proof.
  destruct s as [|a1 [|a2 [|a3 [|a4 [|a5 [|a6 [|a7 s]]]]]]]; simpl;
    try discriminate.
  destruct (isHexDigit a1) eqn:E1, (isHexDigit a2) eqn:E2,
    (isHexDigit a3) eqn:E3, (isHexDigit a4) eqn:E4,
    (isHexDigit a5) eqn:E5, (isHexDigit a6) eqn:E6; simpl; try discriminate.
  now intros [= <- <- <- <- <- <-].
Qed.

Lemma substring_0_0 (s : string) : substring 0 0 s = "".
Proof. now destruct s. Qed.

(** The shorthand form is expanded by doubling each digit; any other
    string is left as it is. *)
Lemma replace_shorthandRegex (s : string) :
  replace s shorthandRegex double_digits =
    match three_hex (strip_hash s) with
    | Some (a, b, c) =>
        String a (String a (String b (String b (String c (String c "")))))
    | None => s
    end.
Proof.
  unfold replace. rewrite exec_shorthandRegex.
  destruct (three_hex (strip_hash s)) as [[[a b] c]|]; [| reflexivity].
  cbn. now rewrite substring_0_0.
Qed.

(** What [hexToRgb] computes, in terms of the digits of its argument. *)
Lemma hexToRgb_digits (s : string) :
  hexToRgb s =
    match three_hex (strip_hash s) with
    | Some (a, b, c) => rgb_of_bytes (byte_of a a) (byte_of b b) (byte_of c c)
    | None =>
        match six_hex (strip_hash s) with
        | Some ((a, b), (c, d), (e, f)) =>
            rgb_of_bytes (byte_of a b) (byte_of c d) (byte_of e f)
        | None => fallback
        end
    end.
Proof.
  unfold hexToRgb, hexToRgb_try, try_catch.
  rewrite replace_shorthandRegex.
  destruct (three_hex (strip_hash s)) as [[[a b] c]|] eqn:E3.
  - apply three_hex_Some in E3 as (_ & Ha & Hb & Hc).
    rewrite exec_fullRegex. cbn.
    rewrite (isHexDigit_not_hash a Ha). cbn. rewrite Ha, Hb, Hc. cbn.
    now rewrite !parseInt_two_hex.
  - rewrite exec_fullRegex.
    destruct (six_hex (strip_hash s)) as [[[[a b] [c d]] [e f]]|] eqn:E6;
      [| reflexivity].
    apply six_hex_Some in E6 as (_ & [Ha Hb] & [Hc Hd] & [He Hf]). cbn.
    now rewrite !parseInt_two_hex.
Qed.

End Matching.

(** ** Colour parser *)

Section ColourParser.

(** A small integer literal denotes the integer itself. *)
Lemma of_Z_byte_value (z : Z) :
  0 <= z <= 255 ->
  exists q, Number.to_Q (Number.of_Z z) = Some q /\ Qeq q (inject_Z z).
Proof.
  intros Hz.
  assert (H : forallb
                (fun n => match Number.to_Q (Number.of_Z (Z.of_nat n)) with
                          | Some q => Qeq_bool q (inject_Z (Z.of_nat n))
                          | None => false
                          end) (seq 0 256) = true) by (vm_compute; reflexivity).
  rewrite forallb_forall in H.
  specialize (H (Z.to_nat z)). rewrite Z2Nat.id in H by lia.
  destruct (Number.to_Q (Number.of_Z z)) as [q|].
  - exists q. split; [reflexivity |]. apply Qeq_bool_eq, H, in_seq. lia.
  - discriminate H. apply in_seq. lia.
Qed.

Lemma is_hex_form_3 (s : string) :
  is_hex_form 3 s = false -> three_hex (strip_hash s) = None.
Proof.
  unfold is_hex_form.
  destruct (strip_hash s) as [|a1 [|a2 [|a3 [|a4 t]]]]; simpl; try reflexivity.
  rewrite andb_true_r, andb_assoc. now intros ->.
Qed.

Lemma is_hex_form_6 (s : string) :
  is_hex_form 6 s = false -> six_hex (strip_hash s) = None.
Proof.
  unfold is_hex_form.
  destruct (strip_hash s) as [|a1 [|a2 [|a3 [|a4 [|a5 [|a6 [|a7 t]]]]]]]; simpl;
    try reflexivity.
  rewrite andb_true_r, !andb_assoc. now intros ->.
Qed.

Lemma hexToRgb_bytes (s : string) :
  exists r g b : Z,
    (0 <= r <= 255 /\ 0 <= g <= 255 /\ 0 <= b <= 255) /\
    hexToRgb s = rgb_of_bytes r g b.
Proof.
  rewrite hexToRgb_digits.
  destruct (three_hex (strip_hash s)) as [[[a b] c]|] eqn:E3.
  - apply three_hex_Some in E3 as (_ & Ha & Hb & Hc).
    exists (byte_of a a), (byte_of b b), (byte_of c c).
    auto using byte_of_range.
  - destruct (six_hex (strip_hash s)) as [[[[a b] [c d]] [e f]]|] eqn:E6.
    + apply six_hex_Some in E6 as (_ & [Ha Hb] & [Hc Hd] & [He Hf]).
      exists (byte_of a b), (byte_of c d), (byte_of e f).
      auto using byte_of_range.
    + exists 255, 255, 255. split; [lia | reflexivity].
Qed.

Lemma hexToRgb_no_form (s : string) :
  is_hex_form 3 s = false -> is_hex_form 6 s = false -> hexToRgb s = fallback.
Proof.
  intros H3%is_hex_form_3 H6%is_hex_form_6.
  now rewrite hexToRgb_digits, H3, H6.
Qed.

(** *** The leading [#] and the case of the digits *)

Lemma strip_hash_toLowerCase (s : string) :
  strip_hash (toLowerCase s) = toLowerCase (strip_hash s).
Proof.
  destruct s as [|c s]; [reflexivity |]. simpl.
  assert (H : Ascii.eqb (Char.toLowerCase c) "#" = Ascii.eqb c "#").
  { apply eqb_prop. revert c. apply forall_chars. vm_compute. reflexivity. }
  rewrite H. now destruct (Ascii.eqb c "#").
Qed.

Lemma byte_of_toLowerCase (a b : ascii) :
  isHexDigit a = true -> isHexDigit b = true ->
  byte_of (Char.toLowerCase a) (Char.toLowerCase b) = byte_of a b.
Proof.
  intros Ha Hb. unfold byte_of. now rewrite !hexValue_toLowerCase.
Qed.

Lemma hexToRgb_toLowerCase (s : string) :
  hexToRgb (toLowerCase s) = hexToRgb s.
Proof.
  rewrite !hexToRgb_digits, strip_hash_toLowerCase.
  destruct (strip_hash s) as [|a1 [|a2 [|a3 [|a4 [|a5 [|a6 [|a7 t]]]]]]];
    try reflexivity; cbn -[isHexDigit]; rewrite !isHexDigit_toLowerCase.
  - destruct (isHexDigit a1) eqn:E1, (isHexDigit a2) eqn:E2,
      (isHexDigit a3) eqn:E3; try reflexivity; cbn.
    now rewrite !byte_of_toLowerCase.
  - destruct (isHexDigit a1) eqn:E1, (isHexDigit a2) eqn:E2,
      (isHexDigit a3) eqn:E3, (isHexDigit a4) eqn:E4,
      (isHexDigit a5) eqn:E5, (isHexDigit a6) eqn:E6; try reflexivity; cbn.
    now rewrite !byte_of_toLowerCase.
Qed.

Lemma hexToRgb_hash_optional (s : string) :
  starts_with_hash s = false -> hexToRgb (String "#" s) = hexToRgb s.
Proof.
  intros H. rewrite !hexToRgb_digits.
  replace (strip_hash s) with s; [reflexivity |].
  destruct s as [|c s]; [reflexivity |]. simpl in *. now rewrite H.
Qed.

End ColourParser.

(** C4. [hexToRgb] expands the three-digit shorthand by doubling each digit
    (the callback of [replace] turns [#abc] into [aabbcc]) and reads the
    six-digit form as three bytes; in particular
    [hexToRgb "#9370DB" = {r:147, g:112, b:219}],
    [hexToRgb "#abc" = {r:170, g:187, b:204}] and
    [hexToRgb "not-a-color" = {r:255, g:255, b:255}]. *)
Theorem C4_hexToRgb_examples :
  (forall s,
     RegExp.replace s shorthandRegex double_digits =
       match three_hex (strip_hash s) with
       | Some (a, b, c) =>
           String a (String a (String b (String b (String c (String c "")))))
       | None => s
       end) /\
  (forall s,
     hexToRgb s =
       match three_hex (strip_hash s) with
       | Some (a, b, c) => rgb_of_bytes (byte_of a a) (byte_of b b) (byte_of c c)
       | None =>
           match six_hex (strip_hash s) with
           | Some ((a, b), (c, d), (e, f)) =>
               rgb_of_bytes (byte_of a b) (byte_of c d) (byte_of e f)
           | None => fallback
           end
       end) /\
  hexToRgb "#9370DB" = rgb_of_bytes 147 112 219 /\
  hexToRgb "#abc" = rgb_of_bytes 170 187 204 /\
  hexToRgb "not-a-color" = rgb_of_bytes 255 255 255.
Proof.
  split; [exact replace_shorthandRegex |].
  split; [exact hexToRgb_digits |].
  repeat split; vm_compute; reflexivity.
Qed.

(** C5. For every input string, [hexToRgb] returns three channels that are
    integers between 0 and 255. When the input has neither the three-digit
    nor the six-digit hex form the result is the fallback [{255, 255, 255}];
    the body of the [try] block completes normally on every string, and a
    thrown completion would be turned into the fallback by the handler, so
    no error leaves the function. *)
Theorem C5_hexToRgb_range_and_fallback (hex : string) :
  (exists r g b : Z,
     (0 <= r <= 255 /\ 0 <= g <= 255 /\ 0 <= b <= 255) /\
     hexToRgb hex = rgb_of_bytes r g b /\
     (exists qr qg qb,
        Number.to_Q (RGB.r (hexToRgb hex)) = Some qr /\ Qeq qr (inject_Z r) /\
        Number.to_Q (RGB.g (hexToRgb hex)) = Some qg /\ Qeq qg (inject_Z g) /\
        Number.to_Q (RGB.b (hexToRgb hex)) = Some qb /\ Qeq qb (inject_Z b))) /\
  (is_hex_form 3 hex = false -> is_hex_form 6 hex = false ->
   hexToRgb hex = fallback) /\
  (exists v, hexToRgb_try hex = Normal v) /\
  (forall e, try_catch (Throw e) fallback = fallback).
Proof.
  split; [| split; [apply hexToRgb_no_form | split; [eexists; reflexivity | reflexivity]]].
  destruct (hexToRgb_bytes hex) as (r & g & b & (Hr & Hg & Hb) & E).
  exists r, g, b. split; [auto |]. split; [exact E |].
  rewrite E. simpl.
  destruct (of_Z_byte_value r Hr) as (qr & ? & ?).
  destruct (of_Z_byte_value g Hg) as (qg & ? & ?).
  destruct (of_Z_byte_value b Hb) as (qb & ? & ?).
  exists qr, qg, qb. auto 10.
Qed.

Lemma C5_witness : hexToRgb "not-a-color" = fallback.
Proof.
  apply (proj1 (proj2 (C5_hexToRgb_range_and_fallback "not-a-color")));
    reflexivity.
Defined.

(** C10 (as stated). The claim quantifies over every string, but a second
    leading [#] is not optional: [hexToRgb "##abc"] is the fallback while
    [hexToRgb "#abc"] is [{170, 187, 204}]. *)
Lemma C10_counterexample :
  hexToRgb (String "#" "#abc") = rgb_of_bytes 255 255 255 /\
  hexToRgb "#abc" = rgb_of_bytes 170 187 204 /\
  hexToRgb (String "#" "#abc") <> hexToRgb "#abc".
Proof.
  split; [vm_compute; reflexivity |].
  split; [vm_compute; reflexivity |].
  intros H. vm_compute in H. discriminate H.
Qed.

(** C10 (amended). For every string [s] that does not itself begin with
    [#], [hexToRgb] returns the same triple on [s] and on [s] with a
    leading [#]; and for every string, hex digits are read without regard
    to case: two strings with the same lower-case form (any mix of upper
    and lower case) give the same triple. For instance
    [hexToRgb "9370db" = hexToRgb "#9370DB" = {r:147, g:112, b:219}]. *)
Theorem C10_hash_optional_case_insensitive (s : string) :
  (starts_with_hash s = false -> hexToRgb (String "#" s) = hexToRgb s) /\
  (forall s', toLowerCase s' = toLowerCase s -> hexToRgb s' = hexToRgb s) /\
  hexToRgb "9370db" = rgb_of_bytes 147 112 219 /\
  hexToRgb "#9370DB" = rgb_of_bytes 147 112 219.
Proof.
  split; [apply hexToRgb_hash_optional |].
  split; [| split; vm_compute; reflexivity].
  intros s' E.
  now rewrite <- (hexToRgb_toLowerCase s'), E, hexToRgb_toLowerCase.
Qed.

Lemma C10_witness :
  hexToRgb (String "#" "9370db") = hexToRgb "9370db" /\
  hexToRgb "9370DB" = hexToRgb "9370db".
Proof.
  split.
  - apply (proj1 (C10_hash_optional_case_insensitive "9370db")). reflexivity.
  - apply (proj1 (proj2 (C10_hash_optional_case_insensitive "9370db"))).
    reflexivity.
Defined.

(** ** Configuration *)

Section Configuration.

Lemma lookup_spread (target source : gmap string value) (k : string) :
  spread target source !! k =
    match source !! k with
    | Some v => Some v
    | None => target !! k
    end.
Proof.
  unfold spread. rewrite lookup_union.
  destruct (source !! k), (target !! k); reflexivity.
Qed.

Lemma lookup_defaults_other (k : string) :
  ~ In k default_names -> defaults !! k = None.
Proof.
  intros H. unfold defaults, object_literal. simpl.
  repeat (rewrite lookup_insert_ne; [| intros <-; apply H; simpl; tauto]).
  apply lookup_empty.
Qed.

End Configuration.

(** C8. For every configuration object supplied by the caller, the merged
    configuration is the defaults overridden by the caller's values: an
    option that the caller names has the caller's value, and an option that
    the caller omits has its default — pointSize 1, atmosphereColor
    "#ffffff", showAtmosphere true, atmosphereAltitude 0.1, polygonColor
    "rgba(255,255,255,0.7)", globeColor "#1d072e", emissive "#000000",
    emissiveIntensity 0.1, shininess 0.9, arcTime 2000, arcLength 0.9,
    rings 1, maxRings 3 — and no value when it has no default. *)
Theorem C8_defaultProps_merge (globeConfig : gmap string value) :
  (forall k v, globeConfig !! k = Some v -> defaultProps globeConfig !! k = Some v) /\
  (forall k, globeConfig !! k = None ->
     defaultProps globeConfig !! k =
       if String.eqb k "pointSize" then Some (VNumber (Number.of_Z 1))
       else if String.eqb k "atmosphereColor" then Some (VString "#ffffff")
       else if String.eqb k "showAtmosphere" then Some (VBoolean true)
       else if String.eqb k "atmosphereAltitude" then Some (VNumber (Number.decimal 1 1))
       else if String.eqb k "polygonColor" then Some (VString "rgba(255,255,255,0.7)")
       else if String.eqb k "globeColor" then Some (VString "#1d072e")
       else if String.eqb k "emissive" then Some (VString "#000000")
       else if String.eqb k "emissiveIntensity" then Some (VNumber (Number.decimal 1 1))
       else if String.eqb k "shininess" then Some (VNumber (Number.decimal 9 1))
       else if String.eqb k "arcTime" then Some (VNumber (Number.of_Z 2000))
       else if String.eqb k "arcLength" then Some (VNumber (Number.decimal 9 1))
       else if String.eqb k "rings" then Some (VNumber (Number.of_Z 1))
       else if String.eqb k "maxRings" then Some (VNumber (Number.of_Z 3))
       else None).
Proof.
  split.
  - intros k v H. unfold defaultProps. now rewrite lookup_spread, H.
  - intros k H. unfold defaultProps. rewrite lookup_spread, H.
    repeat match goal with
      | |- context [String.eqb k ?n] =>
          destruct (String.eqb_spec k n) as [-> | ?]; [reflexivity |]
      end.
    apply lookup_defaults_other. simpl. intuition congruence.
Qed.

Lemma C8_witness :
  defaultProps {[ "pointSize" := VNumber (Number.of_Z 2) ]} !! "pointSize"
    = Some (VNumber (Number.of_Z 2)) /\
  defaultProps {[ "pointSize" := VNumber (Number.of_Z 2) ]} !! "arcTime"
    = Some (VNumber (Number.of_Z 2000)).
Proof.
  split.
  - apply (proj1 (C8_defaultProps_merge _)). reflexivity.
  - apply (proj2 (C8_defaultProps_merge _) "arcTime"). reflexivity.
Defined.

(** ** Strict equality of numbers *)

Section StrictEquality.

Lemma strict_eq_iff (x y : number) :
  Number.strict_eq x y = true <->
  Number.isNaN x = false /\ unsigned_zero x = unsigned_zero y.
Proof.
  unfold Number.strict_eq, SFeqb.
  destruct x as [sx | sx | | sx mx ex], y as [sy | sy | | sy my ey];
    try destruct sx; try destruct sy; simpl;
    try (split;
         [ intros Hq; first [discriminate Hq | split; reflexivity]
         | intros [Hq1 Hq2]; first [reflexivity | discriminate Hq1 | discriminate Hq2] ];
         fail);
    fold (Pos.compare mx my);
    destruct (Z.compare_spec ex ey) as [-> | |];
    try destruct (Pos.compare_spec mx my) as [-> | |]; simpl;
    (split;
     [ intros Hq; first [discriminate Hq | split; reflexivity]
     | intros [_ Hq]; first [reflexivity | injection Hq; intros; subst; lia] ]).
Qed.

Lemma strict_eq_refl (x : number) :
  Number.isNaN x = false -> Number.strict_eq x x = true.
Proof. intros H. apply strict_eq_iff. auto. Qed.

Lemma strict_eq_sym (x y : number) :
  Number.strict_eq x y = true -> Number.strict_eq y x = true.
Proof.
  rewrite !strict_eq_iff. intros [Hx E]. split; [| congruence].
  destruct x, y; simpl in *; congruence.
Qed.

Lemma strict_eq_trans (x y z : number) :
  Number.strict_eq x y = true -> Number.strict_eq y z = true ->
  Number.strict_eq x z = true.
Proof. rewrite !strict_eq_iff. intros [Hx E1] [Hy E2]. split; congruence. Qed.

End StrictEquality.

(** ** Arrays: filtering by first occurrence *)

Section FirstOccurrences.

Context {A : Type} (same : A -> A -> bool).

Lemma findIndex_from_bounds (p : A -> bool) (i : Z) (l : list A) :
  existsb p l = true ->
  i <= Array.findIndex_from p i l < i + Z.of_nat (length l).
Proof.
  revert i. induction l as [|x l IH]; intros i; simpl; [discriminate |].
  destruct (p x); simpl; [lia |].
  intros H. specialize (IH (i + 1) H). lia.
Qed.

Lemma findIndex_from_app (p : A -> bool) (i : Z) (pre l : list A) :
  Array.findIndex_from p i (pre ++ l) =
    if existsb p pre then Array.findIndex_from p i pre
    else Array.findIndex_from p (i + Z.of_nat (length pre)) l.
Proof.
  revert i. induction pre as [|x pre IH]; intros i; simpl.
  - f_equal. lia.
  - destruct (p x); simpl; [reflexivity |].
    rewrite IH. destruct (existsb p pre); [reflexivity |]. f_equal. lia.
Qed.

(** The index test of the source keeps an element exactly when no
    earlier element is the same. *)
Lemma filter_from_first_occurrences (a pre l : list A) :
  a = pre ++ l ->
  (forall x, In x l -> same x x = true) ->
  Array.filter_from
    (fun v i => Array.findIndex (fun v2 => same v2 v) a =? i)
    (Z.of_nat (length pre)) l
  = first_occurrences same pre l.
Proof.
  revert pre. induction l as [|x l IH]; intros pre Ha Hrefl; [reflexivity |].
  simpl.
  assert (Hx : (Array.findIndex (fun v2 => same v2 x) a =? Z.of_nat (length pre))
               = negb (existsb (fun y => same y x) pre)).
  { subst a. unfold Array.findIndex. rewrite findIndex_from_app.
    destruct (existsb (fun y => same y x) pre) eqn:E; simpl.
    - apply Z.eqb_neq.
      pose proof (findIndex_from_bounds (fun v2 => same v2 x) 0 pre E). lia.
    - rewrite (Hrefl x) by (now left). apply Z.eqb_eq. lia. }
  rewrite Hx.
  assert (Hrec : Array.filter_from
                   (fun v i => Array.findIndex (fun v2 => same v2 v) a =? i)
                   (Z.of_nat (length pre) + 1) l
                 = first_occurrences same (pre ++ [x]) l).
  { replace (Z.of_nat (length pre) + 1) with (Z.of_nat (length (pre ++ [x])))
      by (rewrite length_app; simpl; lia).
    apply IH.
    - now rewrite <- app_assoc.
    - intros y Hy. apply Hrefl. now right. }
  rewrite Hrec. now destruct (existsb (fun y => same y x) pre).
Qed.

Lemma Array_filter_first_occurrences (a : list A) :
  (forall x, In x a -> same x x = true) ->
  Array.filter
    (fun v i a => Array.findIndex (fun v2 => same v2 v) a =? i) a
  = first_occurrences same [] a.
Proof. intros H. now apply (filter_from_first_occurrences a [] a). Qed.

Lemma first_occurrences_sublist (seen l : list A) :
  sublist (first_occurrences same seen l) l.
Proof.
  revert seen. induction l as [|x l IH]; intros seen; simpl.
  - constructor.
  - destruct (existsb _ seen); constructor; apply IH.
Qed.

Lemma first_occurrences_not_seen (seen l : list A) (x y : A) :
  In x (first_occurrences same seen l) -> In y seen -> same y x = false.
Proof.
  revert seen. induction l as [|z l IH]; intros seen; simpl; [tauto |].
  destruct (existsb (fun y => same y z) seen) eqn:E.
  - intros Hx Hy. apply (IH (seen ++ [z])); [assumption |].
    apply in_or_app. now left.
  - intros [-> | Hx] Hy.
    + destruct (same y x) eqn:Es; [| reflexivity].
      assert (existsb (fun y => same y x) seen = true)
        by (apply existsb_exists; eauto).
      congruence.
    + apply (IH (seen ++ [z])); [assumption |].
      apply in_or_app. now left.
Qed.

Lemma first_occurrences_distinct (seen l : list A) :
  ForallOrdPairs (fun p q => same p q = false) (first_occurrences same seen l).
Proof.
  revert seen. induction l as [|x l IH]; intros seen; simpl; [constructor |].
  destruct (existsb _ seen); [apply IH |].
  constructor; [| apply IH].
  apply List.Forall_forall. intros q Hq.
  apply (first_occurrences_not_seen (seen ++ [x]) l q x Hq).
  apply in_or_app. right. now left.
Qed.

Hypothesis same_trans :
  forall x y z, same x y = true -> same y z = true -> same x z = true.

(** The first element that is the same as [p] survives. *)
Lemma first_occurrences_first (seen l : list A) (p q : A) :
  existsb (fun y => same y p) seen = false ->
  List.find (fun y => same y p) l = Some q ->
  In q (first_occurrences same seen l).
Proof.
  revert seen. induction l as [|x l IH]; intros seen Hseen; simpl; [discriminate |].
  destruct (same x p) eqn:Exp.
  - intros [= ->].
    destruct (existsb (fun y => same y q) seen) eqn:E; [| now left].
    apply existsb_exists in E as (y & Hy & Eyq).
    assert (existsb (fun y => same y p) seen = true)
      by (apply existsb_exists; eauto).
    congruence.
  - intros Hfind.
    assert (Hin : In q (first_occurrences same (seen ++ [x]) l)).
    { apply IH; [| assumption].
      rewrite existsb_app, Hseen. simpl. now rewrite Exp. }
    destruct (existsb (fun y => same y x) seen); [assumption | now right].
Qed.

Hypothesis same_sym : forall x y, same x y = true -> same y x = true.

Lemma distinct_lookup (l : list A) (i j : nat) (p q : A) :
  ForallOrdPairs (fun p q => same p q = false) l ->
  i <> j -> l !! i = Some p -> l !! j = Some q -> same p q = false.
Proof.
  intros H. revert i j. induction H as [|x l Hx Hl IH]; intros i j Hij Hi Hj.
  - discriminate.
  - rewrite List.Forall_forall in Hx.
    destruct i as [|i], j as [|j]; simpl in *.
    + congruence.
    + injection Hi as ->. apply Hx. apply list_elem_of_In.
      eapply list_elem_of_lookup_2; eauto.
    + injection Hj as ->.
      destruct (same p q) eqn:E; [| reflexivity].
      apply same_sym in E. rewrite Hx in E; [discriminate |].
      apply list_elem_of_In. eapply list_elem_of_lookup_2; eauto.
    + apply (IH i j); auto.
Qed.

(** Among pairwise different elements, at most one is the same as a
    given one. *)
Lemma distinct_filter_le_1 (P : A -> bool) (l : list A) :
  (forall x y, P x = true -> P y = true -> same x y = true) ->
  ForallOrdPairs (fun p q => same p q = false) l ->
  (length (List.filter P l) <= 1)%nat.
Proof.
  intros HP H. induction H as [|x l Hx Hl IH]; simpl; [lia |].
  destruct (P x) eqn:Ex; [| assumption]. simpl.
  rewrite List.Forall_forall in Hx.
  assert (E : List.filter P l = []).
  { destruct (List.filter P l) as [|y t] eqn:Ef; [reflexivity |].
    assert (Hy : In y (List.filter P l)) by (rewrite Ef; now left).
    apply filter_In in Hy as [Hy Py].
    specialize (Hx y Hy). rewrite (HP x y Ex Py) in Hx. discriminate. }
  rewrite E. simpl. lia.
Qed.

End FirstOccurrences.

(** ** Arc builder *)

Section ArcBuilderProperties.

Variable NumberToString : number -> string.

Lemma isValidLat_not_NaN (x : number) : isValidLat x = true -> Number.isNaN x = false.
Proof. intros H. now apply isValidLat_spec in H. Qed.

Lemma isValidLng_not_NaN (x : number) : isValidLng x = true -> Number.isNaN x = false.
Proof. intros H. now apply isValidLng_spec in H. Qed.

Lemma fails_validation_lat (x : number) :
  fails_validation 90 x -> isValidLat x = false.
Proof.
  intros H. destruct (isValidLat x) eqn:E; [| reflexivity].
  apply isValidLat_spec in E as (E1 & E2 & E3).
  destruct H as [H | [H | H]]; [| change (- (90)) with (-90) in H |]; congruence.
Qed.

Lemma fails_validation_lng (x : number) :
  fails_validation 180 x -> isValidLng x = false.
Proof.
  intros H. destruct (isValidLng x) eqn:E; [| reflexivity].
  apply isValidLng_spec in E as (E1 & E2 & E3).
  destruct H as [H | [H | H]]; [| change (- (180)) with (-180) in H |]; congruence.
Qed.

Lemma sameCoordinates_refl (v : Point.t) :
  isValidPoint v = true -> sameCoordinates v v = true.
Proof.
  unfold isValidPoint, sameCoordinates.
  intros [H1 H2]%andb_true_iff.
  now rewrite !strict_eq_refl by auto using isValidLat_not_NaN, isValidLng_not_NaN.
Qed.

Lemma sameCoordinates_sym (v w : Point.t) :
  sameCoordinates v w = true -> sameCoordinates w v = true.
Proof.
  unfold sameCoordinates. intros [H1 H2]%andb_true_iff.
  now rewrite (strict_eq_sym _ _ H1), (strict_eq_sym _ _ H2).
Qed.

Lemma sameCoordinates_trans (u v w : Point.t) :
  sameCoordinates u v = true -> sameCoordinates v w = true ->
  sameCoordinates u w = true.
Proof.
  unfold sameCoordinates. intros [H1 H2]%andb_true_iff [H3 H4]%andb_true_iff.
  now rewrite (strict_eq_trans _ _ _ H1 H3), (strict_eq_trans _ _ _ H2 H4).
Qed.

Lemma In_points (globeConfig : gmap string value) (data : list Position.t) (p : Point.t) :
  In p (points NumberToString globeConfig data) <->
  exists arc, In arc data /\ isValidArc arc = true /\
              In p (arcPoints NumberToString (defaultProps globeConfig) arc).
Proof.
  unfold points, validArcs. rewrite in_flat_map.
  split; intros (arc & H1 & H2).
  - apply filter_In in H1 as [H1 H3]. eauto.
  - exists arc. rewrite filter_In. tauto.
Qed.

Lemma arcPoints_valid (props : gmap string value) (arc : Position.t) (p : Point.t) :
  isValidArc arc = true -> In p (arcPoints NumberToString props arc) ->
  isValidPoint p = true.
Proof.
  unfold isValidArc, isValidPoint. rewrite !andb_true_iff.
  intros [[[H1 H2] H3] H4] [<- | [<- | []]]; simpl; auto.
Qed.

Lemma points_valid (globeConfig : gmap string value) (data : list Position.t) (p : Point.t) :
  In p (points NumberToString globeConfig data) -> isValidPoint p = true.
Proof.
  intros (arc & _ & Hv & Hp)%In_points. eapply arcPoints_valid; eauto.
Qed.

Lemma filter_all {A : Type} (f : A -> bool) (l : list A) :
  (forall x, In x l -> f x = true) -> List.filter f l = l.
Proof.
  induction l as [|x l IH]; intros H; simpl; [reflexivity |].
  rewrite (H x) by (now left). f_equal. apply IH. intros y Hy. apply H. now right.
Qed.

(** The second validity filter keeps every point, and the index test
    keeps the first occurrence of every coordinate pair. *)
Lemma _buildData_first_occurrences (globeConfig : gmap string value) (data : list Position.t) :
  _buildData NumberToString globeConfig data =
    first_occurrences sameCoordinates [] (points NumberToString globeConfig data).
Proof.
  unfold _buildData.
  change (fun v => isValidLat (Point.lat v) && isValidLng (Point.lng v))
    with isValidPoint.
  rewrite (filter_all isValidPoint) by apply points_valid.
  apply Array_filter_first_occurrences.
  intros x Hx. apply sameCoordinates_refl. eapply points_valid; eauto.
Qed.

Lemma _buildData_distinct (globeConfig : gmap string value) (data : list Position.t)
    (i j : nat) (p q : Point.t) :
  i <> j ->
  _buildData NumberToString globeConfig data !! i = Some p ->
  _buildData NumberToString globeConfig data !! j = Some q ->
  sameCoordinates p q = false.
Proof.
  rewrite _buildData_first_occurrences.
  apply distinct_lookup; [apply sameCoordinates_sym |].
  apply first_occurrences_distinct.
Qed.

Lemma _buildData_sublist (globeConfig : gmap string value) (data : list Position.t) :
  sublist (_buildData NumberToString globeConfig data)
          (points NumberToString globeConfig data).
Proof. rewrite _buildData_first_occurrences. apply first_occurrences_sublist. Qed.

Lemma In__buildData (globeConfig : gmap string value) (data : list Position.t) (p : Point.t) :
  In p (_buildData NumberToString globeConfig data) ->
  In p (points NumberToString globeConfig data).
Proof.
  intros H%list_elem_of_In. apply list_elem_of_In.
  eapply elem_of_sublist; eauto using _buildData_sublist.
Qed.

Lemma find_first (globeConfig : gmap string value) (data : list Position.t) (p : Point.t) :
  In p (points NumberToString globeConfig data) ->
  exists q, List.find (fun v => sameCoordinates v p)
              (points NumberToString globeConfig data) = Some q /\
            sameCoordinates q p = true.
Proof.
  intros Hp.
  destruct (List.find (fun v => sameCoordinates v p) _) as [q|] eqn:E.
  - exists q. split; [reflexivity |]. now apply find_some in E.
  - eapply find_none in E; eauto. simpl in E.
    rewrite sameCoordinates_refl in E; [discriminate |].
    eapply points_valid; eauto.
Qed.

Lemma _buildData_first_kept (globeConfig : gmap string value) (data : list Position.t)
    (p : Point.t) :
  In p (points NumberToString globeConfig data) ->
  exists q,
    List.find (fun v => sameCoordinates v p)
      (points NumberToString globeConfig data) = Some q /\
    In q (_buildData NumberToString globeConfig data) /\
    (forall q', In q' (_buildData NumberToString globeConfig data) ->
                sameCoordinates q' p = true -> q' = q).
Proof.
  intros Hp. destruct (find_first globeConfig data p Hp) as (q & Hq & Hqp).
  exists q. split; [assumption |].
  assert (Hin : In q (_buildData NumberToString globeConfig data)).
  { rewrite _buildData_first_occurrences.
    eapply first_occurrences_first; eauto using sameCoordinates_trans. }
  split; [assumption |].
  intros q' Hq' Hq'p.
  apply list_elem_of_In, list_elem_of_lookup in Hq' as [i Hi].
  apply list_elem_of_In, list_elem_of_lookup in Hin as [j Hj].
  destruct (decide (i = j)) as [-> | Hij]; [congruence |].
  pose proof (_buildData_distinct globeConfig data i j q' q Hij Hi Hj) as Hd.
  rewrite (sameCoordinates_trans q' p q Hq'p (sameCoordinates_sym _ _ Hqp)) in Hd.
  discriminate.
Qed.

(** A coordinate pair that some valid arc starts or ends at occurs once. *)
Lemma occurrences_point (globeConfig : gmap string value) (data : list Position.t)
    (p : Point.t) (lat lng : number) :
  In p (points NumberToString globeConfig data) ->
  Number.strict_eq (Point.lat p) lat = true ->
  Number.strict_eq (Point.lng p) lng = true ->
  occurrences lat lng (_buildData NumberToString globeConfig data) = 1%nat.
Proof.
  intros Hp Hlat Hlng. unfold occurrences.
  set (P := fun v => Number.strict_eq (Point.lat v) lat &&
                     Number.strict_eq (Point.lng v) lng).
  assert (Hle : (length (List.filter P (_buildData NumberToString globeConfig data)) <= 1)%nat).
  { apply (distinct_filter_le_1 sameCoordinates).
    - intros x y [H1 H2]%andb_true_iff [H3 H4]%andb_true_iff.
      unfold sameCoordinates.
      rewrite (strict_eq_trans _ _ _ H1 (strict_eq_sym _ _ H3)).
      now rewrite (strict_eq_trans _ _ _ H2 (strict_eq_sym _ _ H4)).
    - rewrite _buildData_first_occurrences. apply first_occurrences_distinct. }
  destruct (_buildData_first_kept globeConfig data p Hp) as (q & Hf & Hq & _).
  apply find_some in Hf as [_ [H1 H2]%andb_true_iff].
  assert (Hin : In q (List.filter P (_buildData NumberToString globeConfig data))).
  { apply filter_In. split; [assumption |]. unfold P.
    rewrite (strict_eq_trans _ _ _ H1 Hlat).
    now rewrite (strict_eq_trans _ _ _ H2 Hlng). }
  destruct (List.filter P _) as [|x [|y t]]; simpl in *; [tauto | lia | lia].
Qed.

Lemma validArcs_drop (l1 l2 : list Position.t) (arc : Position.t) :
  isValidArc arc = false -> validArcs (l1 ++ arc :: l2) = validArcs (l1 ++ l2).
Proof.
  intros H. unfold validArcs. rewrite !List.filter_app. simpl. now rewrite H.
Qed.

Lemma _buildData_drop (globeConfig : gmap string value) (l1 l2 : list Position.t)
    (arc : Position.t) :
  isValidArc arc = false ->
  _buildData NumberToString globeConfig (l1 ++ arc :: l2) =
  _buildData NumberToString globeConfig (l1 ++ l2).
Proof.
  intros H. unfold _buildData, points. now rewrite validArcs_drop.
Qed.

End ArcBuilderProperties.

(** C2 (as stated). Two arcs that share their start coordinate (10, 20)
    but end at an invalid latitude (200 and 95) are both dropped by the
    validity filter: the shared coordinate does not occur in the output at
    all, so it does not occur exactly once. *)
Lemma C2_counterexample :
  let arc1 := Position.mk (Number.of_Z 0) (Number.of_Z 10) (Number.of_Z 20)
                (Number.of_Z 200) (Number.of_Z 0) (Number.of_Z 0) "#9370DB" in
  let arc2 := Position.mk (Number.of_Z 1) (Number.of_Z 10) (Number.of_Z 20)
                (Number.of_Z 95) (Number.of_Z 30) (Number.of_Z 0) "#abc" in
  let out := _buildData (fun _ => "") ∅ [arc1; arc2] in
  Position.startLat arc1 = Position.startLat arc2 /\
  Position.startLng arc1 = Position.startLng arc2 /\
  out = [] /\
  occurrences (Number.of_Z 10) (Number.of_Z 20) out <> 1%nat.
Proof.
  repeat split; try reflexivity. vm_compute. discriminate.
Qed.

(** C2 (amended). For every input arc list, no two points of the list
    produced by the arc builder have the same (lat, lng) pair under [===];
    the list is a subsequence of the generated points, so the survivors
    appear in first-seen order; of the generated points that share a
    coordinate pair the first one is in the output and it is the only one.
    In particular, if two arcs share an identical start coordinate and at
    least one of them passes validation, that coordinate occurs exactly
    once in the output. *)
Theorem C2_dedup_first_seen
    (NumberToString : number -> string) (globeConfig : gmap string value)
    (data : list Position.t) :
  let pts := points NumberToString globeConfig data in
  let out := _buildData NumberToString globeConfig data in
  (forall i j p q, i <> j -> out !! i = Some p -> out !! j = Some q ->
                   sameCoordinates p q = false) /\
  sublist out pts /\
  (forall p, In p pts ->
     exists q, List.find (fun v => sameCoordinates v p) pts = Some q /\
               In q out /\
               (forall q', In q' out -> sameCoordinates q' p = true -> q' = q)) /\
  (forall i j arc1 arc2,
     i <> j -> data !! i = Some arc1 -> data !! j = Some arc2 ->
     Number.strict_eq (Position.startLat arc1) (Position.startLat arc2) = true ->
     Number.strict_eq (Position.startLng arc1) (Position.startLng arc2) = true ->
     isValidArc arc1 = true \/ isValidArc arc2 = true ->
     occurrences (Position.startLat arc1) (Position.startLng arc1) out = 1%nat).
Proof.
  intros pts out. subst pts out.
  split; [intros i j p q; apply _buildData_distinct |].
  split; [apply _buildData_sublist |].
  split; [apply _buildData_first_kept |].
  intros i j arc1 arc2 _ Hi Hj Hlat Hlng [Hv | Hv].
  - assert (Hv1 := Hv).
    unfold isValidArc in Hv1. rewrite !andb_true_iff in Hv1.
    destruct Hv1 as [[[H1 H2] _] _].
    eapply occurrences_point with
      (p := Point.mk (get (defaultProps globeConfig) "pointSize")
              (Position.order arc1)
              (fun t => colorAt NumberToString (hexToRgb (Position.color arc1)) t)
              (Position.startLat arc1) (Position.startLng arc1)).
    + apply In_points. exists arc1. split; [| split; [assumption | now left]].
      apply list_elem_of_In. eapply list_elem_of_lookup_2; eauto.
    + simpl. auto using strict_eq_refl, isValidLat_not_NaN.
    + simpl. auto using strict_eq_refl, isValidLng_not_NaN.
  - eapply occurrences_point with
      (p := Point.mk (get (defaultProps globeConfig) "pointSize")
              (Position.order arc2)
              (fun t => colorAt NumberToString (hexToRgb (Position.color arc2)) t)
              (Position.startLat arc2) (Position.startLng arc2)).
    + apply In_points. exists arc2. split; [| split; [assumption | now left]].
      apply list_elem_of_In. eapply list_elem_of_lookup_2; eauto.
    + simpl. now apply strict_eq_sym.
    + simpl. now apply strict_eq_sym.
Qed.

Lemma C2_witness :
  let arc1 := Position.mk (Number.of_Z 0) (Number.of_Z 10) (Number.of_Z 20)
                (Number.of_Z 30) (Number.of_Z 40) (Number.of_Z 0) "#9370DB" in
  let arc2 := Position.mk (Number.of_Z 1) (Number.of_Z 10) (Number.of_Z 20)
                (Number.of_Z 50) (Number.of_Z 60) (Number.of_Z 0) "#abc" in
  occurrences (Number.of_Z 10) (Number.of_Z 20)
    (_buildData (fun _ => "") ∅ [arc1; arc2]) = 1%nat.
Proof.
  intros arc1 arc2.
  apply (proj2 (proj2 (proj2
           (C2_dedup_first_seen (fun _ => "") ∅ [arc1; arc2])))
           0%nat 1%nat arc1 arc2).
  - lia.
  - reflexivity.
  - reflexivity.
  - reflexivity.
  - reflexivity.
  - left. reflexivity.
Defined.

(** C3. For every input arc list, an arc with a coordinate that fails
    validation — a start or end latitude that is NaN or outside
    [-90, 90], a start or end longitude that is NaN or outside
    [-180, 180] — contributes no points: the output is the output for the
    list without that arc, and every point of an output comes from an arc
    that passes validation. The builder is a total function: nothing is
    raised. *)
Theorem C3_invalid_arc_dropped
    (NumberToString : number -> string) (globeConfig : gmap string value)
    (l1 l2 : list Position.t) (arc : Position.t) :
  fails_validation 90 (Position.startLat arc) \/
  fails_validation 180 (Position.startLng arc) \/
  fails_validation 90 (Position.endLat arc) \/
  fails_validation 180 (Position.endLng arc) ->
  _buildData NumberToString globeConfig (l1 ++ arc :: l2) =
    _buildData NumberToString globeConfig (l1 ++ l2) /\
  (forall p, In p (_buildData NumberToString globeConfig (l1 ++ arc :: l2)) ->
     exists arc', In arc' (l1 ++ l2) /\ isValidArc arc' = true /\
                  In p (arcPoints NumberToString (defaultProps globeConfig) arc')).
Proof.
  intros H.
  assert (Hv : isValidArc arc = false).
  { unfold isValidArc.
    destruct H as [H | [H | [H | H]]];
      [ apply fails_validation_lat in H
      | apply fails_validation_lng in H
      | apply fails_validation_lat in H
      | apply fails_validation_lng in H ];
      rewrite H, ?andb_false_r; reflexivity. }
  split; [now apply _buildData_drop |].
  intros p Hp. rewrite (_buildData_drop _ _ _ _ _ Hv) in Hp.
  now apply In__buildData, In_points in Hp.
Qed.

Lemma C3_witness :
  let good := Position.mk (Number.of_Z 0) (Number.of_Z 10) (Number.of_Z 20)
                (Number.of_Z 30) (Number.of_Z 40) (Number.of_Z 0) "#9370DB" in
  let bad := Position.mk (Number.of_Z 1) (Number.of_Z 200) (Number.of_Z 20)
               (Number.of_Z 50) (Number.of_Z 60) (Number.of_Z 0) "#abc" in
  _buildData (fun _ => "") ∅ ([good] ++ bad :: []) =
  _buildData (fun _ => "") ∅ ([good] ++ []).
Proof.
  intros good bad.
  apply (proj1 (C3_invalid_arc_dropped (fun _ => "") ∅ [good] [] bad
                  (or_introl (or_intror (or_intror eq_refl))))).
Defined.

(** C9. Every point that the arc builder emits carries a colour function
    closed over the RGB triple parsed from the colour string of the arc it
    comes from: for every [t] (in particular for [t] in [0, 1]) the function
    returns ["rgba(r, g, b, a)"] with the three channels of that triple and
    [a = 1 - t]. The alpha is 1 at [t = 0] and 0 at [t = 1]. *)
Theorem C9_point_colour
    (NumberToString : number -> string) (globeConfig : gmap string value)
    (data : list Position.t) (p : Point.t) :
  In p (_buildData NumberToString globeConfig data) ->
  (exists arc,
     In arc data /\ isValidArc arc = true /\
     In p (arcPoints NumberToString (defaultProps globeConfig) arc) /\
     forall t,
       Point.color p t =
         ("rgba(" ++ NumberToString (RGB.r (hexToRgb (Position.color arc))) ++ ", "
                  ++ NumberToString (RGB.g (hexToRgb (Position.color arc))) ++ ", "
                  ++ NumberToString (RGB.b (hexToRgb (Position.color arc))) ++ ", "
                  ++ NumberToString (Number.sub (Number.of_Z 1) t) ++ ")")%string) /\
  Number.sub (Number.of_Z 1) (Number.of_Z 0) = Number.of_Z 1 /\
  Number.sub (Number.of_Z 1) (Number.decimal 5 1) = Number.decimal 5 1 /\
  Number.sub (Number.of_Z 1) (Number.of_Z 1) = Number.of_Z 0.
Proof.
  intros Hp. split; [| repeat split; vm_compute; reflexivity].
  apply In__buildData, In_points in Hp as (arc & Ha & Hv & Hp).
  exists arc. repeat split; try assumption.
  intros t. destruct Hp as [<- | [<- | []]]; reflexivity.
Qed.

Lemma C9_witness :
  let arc := Position.mk (Number.of_Z 0) (Number.of_Z 10) (Number.of_Z 20)
               (Number.of_Z 30) (Number.of_Z 40) (Number.of_Z 0) "#9370DB" in
  let toStr := fun x : number => if Number.strict_eq x (Number.of_Z 147) then "147" else "?" in
  exists p arc',
    In p (_buildData toStr ∅ [arc]) /\ In arc' [arc] /\
    forall t, Point.color p t =
      ("rgba(" ++ toStr (RGB.r (hexToRgb (Position.color arc'))) ++ ", "
               ++ toStr (RGB.g (hexToRgb (Position.color arc'))) ++ ", "
               ++ toStr (RGB.b (hexToRgb (Position.color arc'))) ++ ", "
               ++ toStr (Number.sub (Number.of_Z 1) t) ++ ")")%string.
Proof.
  intros arc toStr.
  pose (p := Point.mk (get (defaultProps ∅) "pointSize") (Position.order arc)
               (fun t => colorAt toStr (hexToRgb (Position.color arc)) t)
               (Position.startLat arc) (Position.startLng arc)).
  assert (Hp : In p (_buildData toStr ∅ [arc])) by (left; reflexivity).
  destruct (proj1 (C9_point_colour toStr ∅ [arc] p Hp)) as (arc' & Ha & _ & _ & Hc).
  exists p, arc'. auto.
Defined.

(** ** Random sampler *)

Section Sampler.

Lemma has_In (x : Z) (s : JSet.t) : JSet.has x s = true <-> In x s.
Proof.
  unfold JSet.has. rewrite existsb_exists. split.
  - intros (y & Hy & E). apply Z.eqb_eq in E. now subst.
  - intros H. exists x. split; [assumption | apply Z.eqb_refl].
Qed.

Lemma In_add (x y : Z) (s : JSet.t) : In y (JSet.add x s) <-> y = x \/ In y s.
Proof.
  unfold JSet.add. destruct (JSet.has x s) eqn:E.
  - apply has_In in E. split; [auto | intros [-> | H]; assumption].
  - rewrite in_app_iff. simpl. intuition.
Qed.

Lemma NoDup_add (x : Z) (s : JSet.t) : List.NoDup s -> List.NoDup (JSet.add x s).
Proof.
  unfold JSet.add. destruct (JSet.has x s) eqn:E; [auto |].
  intros H. apply NoDup_rev in H. rewrite <- (rev_involutive (s ++ [x])).
  apply NoDup_rev. rewrite rev_app_distr. simpl. constructor; [| assumption].
  rewrite <- in_rev. intros Hin%has_In. congruence.
Qed.

Lemma length_add (x : Z) (s : JSet.t) :
  (length s <= length (JSet.add x s) <= S (length s))%nat.
Proof.
  unfold JSet.add. destruct (JSet.has x s); [lia |].
  rewrite length_app. simpl. lia.
Qed.

Lemma added_snoc (l : list Z) (x : Z) : added (l ++ [x]) = JSet.add x (added l).
Proof. unfold added. now rewrite fold_left_app. Qed.

Lemma In_added (l : list Z) (x : Z) : In x (added l) <-> In x l.
Proof.
  induction l as [|y l IH] using rev_ind; [reflexivity |].
  rewrite added_snoc, In_add, in_app_iff, IH. simpl. intuition.
Qed.

Lemma NoDup_added (l : list Z) : List.NoDup (added l).
Proof.
  induction l as [|y l IH] using rev_ind; [constructor |].
  rewrite added_snoc. now apply NoDup_add.
Qed.

(** The set holds the distinct draws in the order of first occurrence. *)
Lemma added_first_seen (l : list Z) : added l = first_seen l.
Proof.
  unfold first_seen.
  induction l as [|y l IH] using rev_ind; [reflexivity |].
  rewrite added_snoc, rev_app_distr. simpl.
  unfold JSet.add. destruct (in_dec Z.eq_dec y (rev l)) as [Hin | Hnin].
  - rewrite <- in_rev, <- In_added in Hin. apply has_In in Hin.
    now rewrite Hin.
  - rewrite <- in_rev, <- In_added, <- has_In in Hnin.
    destruct (JSet.has y (added l)); [congruence |].
    simpl. now rewrite IH.
Qed.

Lemma draws_S (random : nat -> Q) (min max : Z) (k : nat) :
  draws random min max (S k) =
  draws random min max k ++ [pick (random k) min max].
Proof. unfold draws. now rewrite seq_S, map_app. Qed.

Lemma In_draws (random : nat -> Q) (min max : Z) (k : nat) (z : Z) :
  In z (draws random min max k) <->
  exists i, (i < k)%nat /\ pick (random i) min max = z.
Proof.
  unfold draws. rewrite in_map_iff. split.
  - intros (i & E & Hi). apply in_seq in Hi. exists i. split; [lia | assumption].
  - intros (i & Hi & E). exists i. split; [assumption |]. apply in_seq. lia.
Qed.

(** A draw lies in the range. *)
Lemma pick_range (u : Q) (min max : Z) :
  (0 <= u)%Q -> (u < 1)%Q -> min <= max -> min <= pick u min max <= max.
Proof.
  intros H0 H1 Hmm. unfold pick, Math.floor.
  set (n := max - min + 1).
  assert (Hn : (0 < inject_Z n)%Q).
  { replace 0%Q with (inject_Z 0) by reflexivity. rewrite <- Zlt_Qlt. lia. }
  assert (Hlo : 0 <= Qfloor (u * inject_Z n)).
  { change 0 with (Qfloor (inject_Z 0)) at 1. rewrite Qfloor_Z.
    change 0 with (Qfloor 0%Q). apply Qfloor_resp_le.
    apply Qmult_le_0_compat; [assumption | now apply Qlt_le_weak]. }
  assert (Hhi : Qfloor (u * inject_Z n) < n).
  { rewrite Zlt_Qlt.
    apply Qle_lt_trans with (u * inject_Z n)%Q; [apply Qfloor_le |].
    rewrite <- (Qmult_1_l (inject_Z n)) at 2.
    now apply Qmult_lt_compat_r. }
  lia.
Qed.

Lemma range_complete (min max z : Z) : min <= z <= max -> In z (range min max).
Proof.
  intros H. unfold range. apply in_map_iff.
  exists (Z.to_nat (z - min)). split; [lia |]. apply in_seq. lia.
Qed.

Lemma range_length (min max : Z) :
  min <= max -> Z.of_nat (length (range min max)) = max - min + 1.
Proof. intros H. unfold range. rewrite length_map, length_seq. lia. Qed.

Lemma range_NoDup (min max : Z) : List.NoDup (range min max).
Proof.
  unfold range. generalize (seq_NoDup (Z.to_nat (max - min + 1)) 0).
  induction (seq 0 (Z.to_nat (max - min + 1))) as [|a l IH]; simpl;
    intros H; [constructor |].
  apply NoDup_cons_iff in H as [Ha Hl]. constructor; [| auto].
  intros (b & E & Hb)%in_map_iff.
  assert (b = a) by lia. now subst.
Qed.

(** A duplicate-free list of integers of the range is no longer than the
    range. *)
Lemma bounded_size (min max : Z) (s : JSet.t) :
  min <= max -> List.NoDup s -> (forall x, In x s -> min <= x <= max) ->
  JSet.size s <= max - min + 1.
Proof.
  intros Hmm Hnd Hin. unfold JSet.size. rewrite <- (range_length min max Hmm).
  apply inj_le, NoDup_incl_length; [assumption |].
  intros x Hx. apply range_complete. auto.
Qed.

Section Loop.

Variables (random : nat -> Q) (min max count : Z).

(** The loop, started after [i] draws with the set of these draws. *)
Lemma sample_loop_result (fuel i : nat) (l : JSet.t) :
  JSet.size (added (draws random min max i)) <= Z.max count 0 ->
  sample_loop fuel random min max count i (added (draws random min max i))
    = Some l ->
  exists k, (i <= k <= i + fuel)%nat /\
            l = added (draws random min max k) /\
            count <= JSet.size l <= Z.max count 0.
Proof.
  revert i. induction fuel as [|fuel IH]; intros i Hsize; simpl.
  - destruct (Z.ltb_spec (JSet.size (added (draws random min max i))) count);
      [discriminate |].
    intros [= <-]. exists i. split; [lia |]. split; [reflexivity | lia].
  - destruct (Z.ltb_spec (JSet.size (added (draws random min max i))) count).
    + rewrite <- added_snoc, <- draws_S. intros H'.
      apply IH in H' as (k & Hk & E & Hc).
      * exists k. split; [lia |]. auto.
      * rewrite draws_S, added_snoc.
        pose proof (length_add (pick (random i) min max)
                      (added (draws random min max i))).
        unfold JSet.size in *. lia.
    + intros [= <-]. exists i. split; [lia |]. split; [reflexivity | lia].
Qed.

Lemma sample_loop_enough (fuel i : nat) :
  count <= JSet.size (added (draws random min max (i + fuel))) ->
  exists l, sample_loop fuel random min max count i
              (added (draws random min max i)) = Some l.
Proof.
  revert i. induction fuel as [|fuel IH]; intros i H; simpl.
  - rewrite Nat.add_0_r in H.
    destruct (Z.ltb_spec (JSet.size (added (draws random min max i))) count);
      [lia | eauto].
  - destruct (Z.ltb_spec (JSet.size (added (draws random min max i))) count);
      [| eauto].
    rewrite <- added_snoc, <- draws_S. apply IH.
    now replace (S i + fuel)%nat with (i + S fuel)%nat by lia.
Qed.

(** The loop returns exactly when the source shows [count] distinct values
    within finitely many draws. *)
Lemma genRandomNumbers_returns_iff :
  (exists fuel l, genRandomNumbers fuel random min max count = Some l) <->
  (exists k, count <= JSet.size (added (draws random min max k))).
Proof.
  unfold genRandomNumbers. change JSet.empty with (added (draws random min max 0)).
  split.
  - intros (fuel & l & H).
    destruct (sample_loop fuel random min max count 0 _) as [s|] eqn:E;
      [| discriminate].
    apply sample_loop_result in E as (k & _ & -> & Hc & _);
      [| unfold JSet.size; simpl; lia].
    now exists k.
  - intros [k Hk]. destruct (sample_loop_enough k 0 Hk) as [l Hl].
    exists k, l. now rewrite Hl.
Qed.

Hypothesis random_unit : unit_interval random.
Hypothesis min_le_max : min <= max.

Lemma draws_range (k : nat) (x : Z) :
  In x (draws random min max k) -> min <= x <= max.
Proof.
  intros (i & _ & <-)%In_draws.
  destruct (random_unit i). now apply pick_range.
Qed.

Lemma added_draws_size (k : nat) :
  JSet.size (added (draws random min max k)) <= max - min + 1.
Proof.
  apply bounded_size; [assumption | apply NoDup_added |].
  intros x Hx. apply (proj1 (In_added _ _)) in Hx. exact (draws_range k x Hx).
Qed.

(** More values than the range holds are never collected. *)
Lemma sample_loop_starved (fuel i : nat) :
  max - min + 1 < count ->
  sample_loop fuel random min max count i (added (draws random min max i))
    = None.
Proof.
  intros Hc. revert i. induction fuel as [|fuel IH]; intros i; simpl;
    pose proof (added_draws_size i);
    destruct (Z.ltb_spec (JSet.size (added (draws random min max i))) count);
    try lia; [reflexivity |].
  rewrite <- added_snoc, <- draws_S. apply IH.
Qed.

(** A source that covers the range has drawn all of it after finitely
    many calls. *)
Lemma covers_prefix (l : list Z) :
  (forall z, In z l -> exists i, pick (random i) min max = z) ->
  exists k, forall z, In z l -> In z (draws random min max k).
Proof.
  induction l as [|x l IH]; intros H.
  - exists 0%nat. intros z [].
  - destruct IH as [k Hk]; [intros z Hz; apply H; now right |].
    destruct (H x) as [i Hi]; [now left |].
    exists (Nat.max k (S i)). intros z [<- | Hz]; apply In_draws.
    + exists i. split; [lia | assumption].
    + apply Hk, In_draws in Hz as (j & Hj & E). exists j. split; [lia | assumption].
Qed.

Lemma covers_enough :
  covers random min max -> count <= max - min + 1 ->
  exists k, count <= JSet.size (added (draws random min max k)).
Proof.
  intros Hcov Hc.
  destruct (covers_prefix (range min max)) as [k Hk].
  { intros z Hz. apply Hcov. unfold range in Hz.
    apply in_map_iff in Hz as (j & <- & Hj). apply in_seq in Hj. lia. }
  exists k. unfold JSet.size.
  rewrite <- (range_length min max min_le_max) in Hc.
  assert (length (range min max) <= length (added (draws random min max k)))%nat;
    [| lia].
  apply NoDup_incl_length; [apply range_NoDup |].
  intros z Hz. apply In_added. auto.
Qed.

Lemma genRandomNumbers_returns :
  covers random min max -> count <= max - min + 1 ->
  exists fuel l, genRandomNumbers fuel random min max count = Some l.
Proof.
  intros Hcov Hc. destruct (covers_enough Hcov Hc) as [k Hk].
  destruct (sample_loop_enough k 0 Hk) as [l Hl].
  exists k, l. unfold genRandomNumbers. change JSet.empty with (added []).
  change [] with (draws random min max 0) at 1. now rewrite Hl.
Qed.

Lemma genRandomNumbers_result (fuel : nat) (l : list Z) :
  0 <= count ->
  genRandomNumbers fuel random min max count = Some l ->
  Z.of_nat (length l) = count /\ List.NoDup l /\
  (forall x, In x l -> min <= x <= max) /\
  exists k, (k <= fuel)%nat /\ l = first_seen (draws random min max k).
Proof.
  intros Hc. unfold genRandomNumbers.
  destruct (sample_loop fuel random min max count 0 JSet.empty) as [s|] eqn:E;
    [| discriminate].
  intros [= <-].
  change JSet.empty with (added (draws random min max 0)) in E.
  apply sample_loop_result in E as (k & Hk & -> & Hsize);
    [| unfold JSet.size; simpl; lia].
  unfold JSet.to_array, JSet.size in *.
  split; [lia |]. split; [apply NoDup_added |].
  split; [intros x Hx; apply (proj1 (In_added _ _)) in Hx;
          exact (draws_range k x Hx) |].
  exists k. split; [lia | apply added_first_seen].
Qed.

Lemma genRandomNumbers_never (fuel : nat) :
  max - min + 1 < count ->
  genRandomNumbers fuel random min max count = None.
Proof.
  intros Hc. unfold genRandomNumbers.
  change JSet.empty with (added (draws random min max 0)).
  now rewrite sample_loop_starved.
Qed.

End Loop.

End Sampler.

Section SamplerInstances.

Lemma genRandomNumbers_0_0_1 (random : nat -> Q) (fuel : nat) :
  unit_interval random -> genRandomNumbers (S fuel) random 0 0 1 = Some [0].
Proof.
  intros Hu. unfold genRandomNumbers. simpl.
  destruct (Hu 0%nat) as [H0 H1].
  assert (E : pick (random 0%nat) 0 0 = 0)
    by (pose proof (pick_range (random 0%nat) 0 0 H0 H1); lia).
  rewrite E. now destruct fuel.
Qed.

Lemma fifths_unit : unit_interval fifths.
Proof.
  intros i. unfold fifths, Qle, Qlt. simpl.
  pose proof (Z.mod_pos_bound (Z.of_nat i) 5). lia.
Qed.

Lemma fifths_covers : covers fifths 0 4.
Proof.
  intros z Hz. exists (Z.to_nat z).
  assert (H : z = 0 \/ z = 1 \/ z = 2 \/ z = 3 \/ z = 4) by lia.
  destruct H as [-> | [-> | [-> | [-> | ->]]]]; reflexivity.
Qed.

End SamplerInstances.





(* ===================================================================== *)
(** * Part III — further properties of the code                           *)
(* ===================================================================== *)

(** ** Coordinate validator *)

Section ValidatorMore.

Lemma isValidCoordinate_finite (v max : number) :
  isFinite max = true -> isValidCoordinate v max = true -> isFinite v = true.
Proof.
  unfold isValidCoordinate, Number.leb, SFleb.
  destruct v as [s | s | | s m e]; try reflexivity; simpl; [| discriminate].
  destruct max as [s' | s' | | s' m' e']; simpl; discriminate.
Qed.

Lemma isValidCoordinate_negate (v max : number) :
  isValidCoordinate (negate v) max = isValidCoordinate v max.
Proof. now destruct v. Qed.

Lemma leb_ninety_oneeighty (m : positive) (e : Z) :
  Number.leb (S754_finite false m e) (Number.of_Z 90) = true ->
  Number.leb (S754_finite false m e) (Number.of_Z 180) = true.
Proof.
  change (Number.of_Z 90) with (S754_finite false 6333186975989760 (-46)).
  change (Number.of_Z 180) with (S754_finite false 6333186975989760 (-45)).
  unfold Number.leb, SFleb, SFcompare.
  intros H.
  assert (He : e <= -46).
  { destruct (Z.compare_spec e (-46)) as [E | E | E]; [lia | lia | discriminate H]. }
  assert (E : (e ?= -45) = Lt) by (apply Z.compare_lt_iff; lia).
  rewrite E. reflexivity.
Qed.

End ValidatorMore.

(** X1. A coordinate that passes validation is finite: it is neither NaN
    nor an infinity, for the latitude test as for the longitude test. *)
Theorem X1_valid_is_finite (v : number) :
  (isValidLat v = true -> isFinite v = true) /\
  (isValidLng v = true -> isFinite v = true).
Proof.
  split; apply isValidCoordinate_finite; vm_compute; reflexivity.
Qed.

Lemma X1_witness : isFinite (Number.of_Z 45) = true.
Proof.
  apply (proj1 (X1_valid_is_finite (Number.of_Z 45))). vm_compute. reflexivity.
Defined.

(** X2. Validation looks at the magnitude only: [v] and [-v] pass or fail
    together, whatever the bound; and every valid latitude is a valid
    longitude. *)
Theorem X2_validator_symmetric_and_nested (v : number) :
  (forall max, isValidCoordinate (negate v) max = isValidCoordinate v max) /\
  isValidLat (negate v) = isValidLat v /\
  isValidLng (negate v) = isValidLng v /\
  (isValidLat v = true -> isValidLng v = true).
Proof.
  split; [intros max; apply isValidCoordinate_negate |].
  split; [apply isValidCoordinate_negate |].
  split; [apply isValidCoordinate_negate |].
  unfold isValidLat, isValidLng, isValidCoordinate.
  destruct v as [s | s | | s m e]; cbn [Number.isNaN negb andb Math.abs SFabs];
    [intros _; vm_compute; reflexivity | intros H; vm_compute in H; discriminate H
    | discriminate | apply leb_ninety_oneeighty].
Qed.

Lemma X2_witness : isValidLng (Number.of_Z (-45)) = true.
Proof.
  apply (proj2 (proj2 (proj2 (X2_validator_symmetric_and_nested (Number.of_Z (-45)))))).
  vm_compute. reflexivity.
Defined.

(** ** Arc builder and animation set-up *)

Section FirstOccurrencesMore.

Context {A : Type} (same : A -> A -> bool).

Lemma first_occurrences_app (seen l1 l2 : list A) :
  first_occurrences same seen (l1 ++ l2) =
  first_occurrences same seen l1 ++ first_occurrences same (seen ++ l1) l2.
Proof.
  revert seen. induction l1 as [|x l1 IH]; intros seen; simpl.
  - now rewrite app_nil_r.
  - rewrite IH, <- app_assoc. simpl.
    now destruct (existsb (fun y => same y x) seen).
Qed.

Lemma first_occurrences_all_seen (seen l : list A) :
  (forall x, In x l -> existsb (fun y => same y x) seen = true) ->
  first_occurrences same seen l = [].
Proof.
  revert seen. induction l as [|x l IH]; intros seen H; simpl; [reflexivity |].
  rewrite (H x) by (now left). apply IH.
  intros y Hy. rewrite existsb_app, (H y) by (now right). reflexivity.
Qed.

Lemma first_occurrences_head (l : list A) :
  head (first_occurrences same [] l) = head l.
Proof. now destruct l. Qed.

End FirstOccurrencesMore.

Section ArcBuilderMore.

Variable NumberToString : number -> string.

Lemma validData_validArcs (data : list Position.t) : validData data = validArcs data.
Proof. reflexivity. Qed.

Lemma points_app (globeConfig : gmap string value) (d1 d2 : list Position.t) :
  points NumberToString globeConfig (d1 ++ d2) =
  points NumberToString globeConfig d1 ++ points NumberToString globeConfig d2.
Proof. unfold points, validArcs. now rewrite List.filter_app, flat_map_app. Qed.

Lemma points_length (globeConfig : gmap string value) (data : list Position.t) :
  length (points NumberToString globeConfig data) = (2 * length (validArcs data))%nat.
Proof.
  unfold points. induction (validArcs data) as [|a l IH]; simpl; [reflexivity |].
  rewrite IH. lia.
Qed.

Lemma _buildData_absorbs (globeConfig : gmap string value) (data extra : list Position.t) :
  (forall arc, In arc extra -> In arc data) ->
  _buildData NumberToString globeConfig (data ++ extra) =
  _buildData NumberToString globeConfig data.
Proof.
  intros Hin. rewrite !_buildData_first_occurrences, points_app.
  rewrite first_occurrences_app. simpl.
  rewrite (first_occurrences_all_seen sameCoordinates
             (points NumberToString globeConfig data)
             (points NumberToString globeConfig extra)); [apply app_nil_r |].
  intros p Hp. apply existsb_exists. exists p. split.
  - apply In_points in Hp as (arc & Ha & Hv & Hp).
    apply In_points. exists arc. auto.
  - apply sameCoordinates_refl. eapply points_valid; eauto.
Qed.

Lemma _buildData_covers_point (globeConfig : gmap string value) (data : list Position.t)
    (p : Point.t) :
  In p (points NumberToString globeConfig data) ->
  exists q, In q (_buildData NumberToString globeConfig data) /\
            lies_at q (Point.lat p) (Point.lng p) = true.
Proof.
  intros Hp.
  destruct (_buildData_first_kept NumberToString globeConfig data p Hp)
    as (q & Hf & Hq & _).
  exists q. split; [assumption |]. now apply find_some in Hf.
Qed.

End ArcBuilderMore.

(** X3. The second validity filter of the builder (on the generated
    points) never removes a point, and every point of the output has a
    valid latitude and a valid longitude. *)
Theorem X3_defensive_filter_keeps_all
    (NumberToString : number -> string) (globeConfig : gmap string value)
    (data : list Position.t) :
  List.filter (fun v => isValidLat (Point.lat v) && isValidLng (Point.lng v))
    (points NumberToString globeConfig data)
  = points NumberToString globeConfig data /\
  (forall p, In p (_buildData NumberToString globeConfig data) ->
     isValidLat (Point.lat p) = true /\ isValidLng (Point.lng p) = true).
Proof.
  split.
  - apply filter_all. intros p Hp.
    exact (points_valid NumberToString globeConfig data p Hp).
  - intros p Hp%In__buildData%points_valid. now apply andb_true_iff in Hp.
Qed.

Lemma X3_witness :
  let arc := Position.mk (Number.of_Z 0) (Number.of_Z 10) (Number.of_Z 20)
               (Number.of_Z 30) (Number.of_Z 40) (Number.of_Z 0) "#9370DB" in
  let p := Point.mk (get (defaultProps ∅) "pointSize") (Position.order arc)
             (fun t => colorAt (fun _ => "") (hexToRgb (Position.color arc)) t)
             (Position.startLat arc) (Position.startLng arc) in
  isValidLat (Point.lat p) = true /\ isValidLng (Point.lng p) = true.
Proof.
  intros arc p.
  apply (proj2 (X3_defensive_filter_keeps_all (fun _ => "") ∅ [arc]) p).
  left. reflexivity.
Defined.

(** X4. The output of the builder is empty exactly when no arc passes
    validation; otherwise it starts with the first generated point (the
    start point of the first valid arc), and it never has more than two
    points per valid arc. *)
Theorem X4_output_empty_head_length
    (NumberToString : number -> string) (globeConfig : gmap string value)
    (data : list Position.t) :
  (_buildData NumberToString globeConfig data = [] <-> validArcs data = []) /\
  head (_buildData NumberToString globeConfig data) =
    head (points NumberToString globeConfig data) /\
  (forall arc rest, validArcs data = arc :: rest ->
     exists p, head (_buildData NumberToString globeConfig data) = Some p /\
               Point.lat p = Position.startLat arc /\
               Point.lng p = Position.startLng arc /\
               Point.order p = Position.order arc) /\
  (length (_buildData NumberToString globeConfig data)
     <= 2 * length (validArcs data))%nat.
Proof.
  assert (Hhead : head (_buildData NumberToString globeConfig data) =
                  head (points NumberToString globeConfig data))
    by (rewrite _buildData_first_occurrences; apply first_occurrences_head).
  split; [| split; [exact Hhead | split]].
  - split; intros H.
    + rewrite H in Hhead. unfold points in Hhead.
      destruct (validArcs data); [reflexivity | discriminate Hhead].
    + rewrite _buildData_first_occurrences. unfold points. now rewrite H.
  - intros arc rest H. rewrite Hhead. unfold points. rewrite H. simpl.
    eexists. split; [reflexivity |]. simpl. auto.
  - rewrite <- (points_length NumberToString globeConfig).
    apply sublist_length, _buildData_sublist.
Qed.

Lemma X4_witness :
  let arc := Position.mk (Number.of_Z 7) (Number.of_Z 10) (Number.of_Z 20)
               (Number.of_Z 30) (Number.of_Z 40) (Number.of_Z 0) "#9370DB" in
  exists p, head (_buildData (fun _ => "") ∅ [arc]) = Some p /\
            Point.lat p = Number.of_Z 10 /\ Point.lng p = Number.of_Z 20 /\
            Point.order p = Number.of_Z 7.
Proof.
  intros arc.
  apply (proj1 (proj2 (proj2 (X4_output_empty_head_length (fun _ => "") ∅ [arc])))
           arc []).
  reflexivity.
Defined.

(** X5. Arcs that repeat arcs already in the list add nothing: appending
    any arcs taken from the list leaves the output as it is. *)
Theorem X5_repeated_arcs_absorbed
    (NumberToString : number -> string) (globeConfig : gmap string value)
    (data extra : list Position.t) :
  (forall arc, In arc extra -> In arc data) ->
  _buildData NumberToString globeConfig (data ++ extra) =
  _buildData NumberToString globeConfig data.
Proof. apply _buildData_absorbs. Qed.

Lemma X5_witness :
  let arc := Position.mk (Number.of_Z 0) (Number.of_Z 10) (Number.of_Z 20)
               (Number.of_Z 30) (Number.of_Z 40) (Number.of_Z 0) "#9370DB" in
  _buildData (fun _ => "") ∅ ([arc] ++ [arc; arc]) = _buildData (fun _ => "") ∅ [arc].
Proof.
  intros arc. apply (X5_repeated_arcs_absorbed (fun _ => "") ∅ [arc] [arc; arc]).
  intros a [<- | [<- | []]]; now left.
Defined.

(** X6. The arcs that the animation draws are the arcs the points were
    built from, and every such arc has a point of the output at its start
    and a point of the output at its end. *)
Theorem X6_every_drawn_arc_has_its_points
    (NumberToString : number -> string) (globeConfig : gmap string value)
    (data : list Position.t) :
  validData data = validArcs data /\
  (forall arc, In arc (validData data) ->
     (exists p, In p (_buildData NumberToString globeConfig data) /\
                lies_at p (Position.startLat arc) (Position.startLng arc) = true) /\
     (exists p, In p (_buildData NumberToString globeConfig data) /\
                lies_at p (Position.endLat arc) (Position.endLng arc) = true)).
Proof.
  split; [reflexivity |].
  intros arc [Ha Hv]%filter_In.
  split.
  - apply (_buildData_covers_point NumberToString globeConfig data
             (Point.mk (get (defaultProps globeConfig) "pointSize")
                (Position.order arc)
                (fun t => colorAt NumberToString (hexToRgb (Position.color arc)) t)
                (Position.startLat arc) (Position.startLng arc))).
    apply In_points. exists arc. split; [assumption |]. split; [exact Hv | now left].
  - apply (_buildData_covers_point NumberToString globeConfig data
             (Point.mk (get (defaultProps globeConfig) "pointSize")
                (Position.order arc)
                (fun t => colorAt NumberToString (hexToRgb (Position.color arc)) t)
                (Position.endLat arc) (Position.endLng arc))).
    apply In_points. exists arc. split; [assumption |].
    split; [exact Hv | right; now left].
Qed.

Lemma X6_witness :
  let arc := Position.mk (Number.of_Z 0) (Number.of_Z 10) (Number.of_Z 20)
               (Number.of_Z 30) (Number.of_Z 40) (Number.of_Z 0) "#9370DB" in
  exists p, In p (_buildData (fun _ => "") ∅ [arc]) /\
            lies_at p (Number.of_Z 30) (Number.of_Z 40) = true.
Proof.
  intros arc.
  apply (proj2 (proj2 (X6_every_drawn_arc_has_its_points (fun _ => "") ∅ [arc]) arc
                  (or_introl eq_refl))).
Defined.

(** X7. Every point of the output has the configured point size: the
    caller's [pointSize] when the configuration names it (also when it
    names it with the value [undefined]), and 1 otherwise; and it carries
    the order of a valid arc of the input. *)
Theorem X7_point_size_and_order
    (NumberToString : number -> string) (globeConfig : gmap string value)
    (data : list Position.t) (p : Point.t) :
  In p (_buildData NumberToString globeConfig data) ->
  Point.size p = get (defaultProps globeConfig) "pointSize" /\
  (forall v, globeConfig !! "pointSize" = Some v -> Point.size p = v) /\
  (globeConfig !! "pointSize" = None -> Point.size p = VNumber (Number.of_Z 1)) /\
  (exists arc, In arc data /\ isValidArc arc = true /\
               Point.order p = Position.order arc).
Proof.
  intros Hp. apply In__buildData, In_points in Hp as (arc & Ha & Hv & Hp).
  assert (Hs : Point.size p = get (defaultProps globeConfig) "pointSize")
    by (destruct Hp as [<- | [<- | []]]; reflexivity).
  split; [exact Hs |]. rewrite Hs. unfold get, defaultProps.
  rewrite lookup_spread.
  split; [intros v ->; reflexivity |].
  split; [intros ->; reflexivity |].
  exists arc. split; [assumption |]. split; [assumption |].
  destruct Hp as [<- | [<- | []]]; reflexivity.
Qed.

Lemma X7_witness :
  let arc := Position.mk (Number.of_Z 0) (Number.of_Z 10) (Number.of_Z 20)
               (Number.of_Z 30) (Number.of_Z 40) (Number.of_Z 0) "#9370DB" in
  let p := Point.mk (get (defaultProps {[ "pointSize" := VUndefined ]}) "pointSize")
             (Position.order arc)
             (fun t => colorAt (fun _ => "") (hexToRgb (Position.color arc)) t)
             (Position.startLat arc) (Position.startLng arc) in
  Point.size p = VUndefined.
Proof.
  intros arc p.
  assert (Hp : In p (_buildData (fun _ => "") {[ "pointSize" := VUndefined ]} [arc]))
    by (left; reflexivity).
  apply (proj1 (proj2 (X7_point_size_and_order (fun _ => "")
                         {[ "pointSize" := VUndefined ]} [arc] p Hp))).
  reflexivity.
Defined.

(** ** Arc builder: configuration and growth of the input *)

Section ArcBuilderGrowth.

Context {A : Type} (same : A -> A -> bool).

(** With more elements already seen, fewer are kept. *)
Lemma first_occurrences_more_seen (seen seen' l : list A) :
  incl seen seen' ->
  sublist (first_occurrences same seen' l) (first_occurrences same seen l).
Proof.
  revert seen seen'. induction l as [|x l IH]; intros seen seen' Hincl; simpl.
  - constructor.
  - assert (Hincl' : incl (seen ++ [x]) (seen' ++ [x])).
    { intros y [Hy | Hy]%in_app_iff; apply in_or_app; [left; auto | now right]. }
    destruct (existsb (fun y => same y x) seen) eqn:E.
    + assert (E' : existsb (fun y => same y x) seen' = true).
      { apply existsb_exists in E as (y & Hy & Hs).
        apply existsb_exists. exists y. auto. }
      rewrite E'. now apply IH.
    + destruct (existsb (fun y => same y x) seen'); constructor; now apply IH.
Qed.

End ArcBuilderGrowth.

(** X18. The output of the builder depends on the configuration through
    [pointSize] only: two configurations that give the same point size
    give the same points. *)
Theorem X18_only_pointSize_matters
    (NumberToString : number -> string) (globeConfig globeConfig' : gmap string value)
    (data : list Position.t) :
  get (defaultProps globeConfig) "pointSize" = get (defaultProps globeConfig') "pointSize" ->
  _buildData NumberToString globeConfig data =
  _buildData NumberToString globeConfig' data.
Proof.
  intros H. unfold _buildData, points.
  assert (E : forall arc,
             arcPoints NumberToString (defaultProps globeConfig) arc =
             arcPoints NumberToString (defaultProps globeConfig') arc)
    by (intros arc; unfold arcPoints; now rewrite H).
  now rewrite (flat_map_ext _ _ E).
Qed.

Lemma X18_witness :
  let arc := Position.mk (Number.of_Z 0) (Number.of_Z 10) (Number.of_Z 20)
               (Number.of_Z 30) (Number.of_Z 40) (Number.of_Z 0) "#9370DB" in
  _buildData (fun _ => "") {[ "globeColor" := VString "#000" ]} [arc] =
  _buildData (fun _ => "") ∅ [arc].
Proof.
  intros arc. apply X18_only_pointSize_matters. reflexivity.
Defined.

(** X19. Arcs added at the end of the list never remove or reorder the
    points already there: the output for the longer list starts with the
    output for the shorter one, and what follows is a selection of the
    points that the added arcs give on their own. *)
Theorem X19_appending_extends
    (NumberToString : number -> string) (globeConfig : gmap string value)
    (data more : list Position.t) :
  exists added_points,
    _buildData NumberToString globeConfig (data ++ more) =
      _buildData NumberToString globeConfig data ++ added_points /\
    sublist added_points (_buildData NumberToString globeConfig more).
Proof.
  exists (first_occurrences sameCoordinates
            (points NumberToString globeConfig data)
            (points NumberToString globeConfig more)).
  rewrite !_buildData_first_occurrences, points_app, first_occurrences_app.
  split; [reflexivity |].
  apply first_occurrences_more_seen. intros x [].
Qed.

(** ** Configuration *)

Section ConfigurationMore.

Lemma dom_defaults : dom defaults = list_to_set default_names.
Proof.
  unfold defaults, object_literal, default_names. simpl.
  rewrite !dom_insert_L, dom_empty_L. set_solver.
Qed.

Lemma defaultProps_idemp (globeConfig : gmap string value) :
  defaultProps (defaultProps globeConfig) = defaultProps globeConfig.
Proof.
  apply map_eq. intros k. unfold defaultProps. rewrite !lookup_spread.
  destruct (globeConfig !! k); [reflexivity |]. now destruct (defaults !! k).
Qed.

End ConfigurationMore.

(** X8. The merged configuration has exactly the caller's options and the
    thirteen options that have a default: none of the caller's options is
    lost, each of the thirteen is present whatever the caller passes, and
    nothing else appears. Merging the defaults again changes nothing. *)
Theorem X8_defaultProps_domain (globeConfig : gmap string value) :
  dom (defaultProps globeConfig) = dom globeConfig ∪ list_to_set default_names /\
  (forall k, In k default_names -> is_Some (defaultProps globeConfig !! k)) /\
  defaultProps (defaultProps globeConfig) = defaultProps globeConfig.
Proof.
  assert (Hdom : dom (defaultProps globeConfig)
                 = dom globeConfig ∪ list_to_set default_names).
  { unfold defaultProps, spread. now rewrite dom_union_L, dom_defaults. }
  split; [exact Hdom |]. split; [| apply defaultProps_idemp].
  intros k Hk. apply elem_of_dom. rewrite Hdom.
  apply elem_of_union_r, elem_of_list_to_set, list_elem_of_In, Hk.
Qed.

Lemma X8_witness : is_Some (defaultProps ∅ !! "arcTime").
Proof.
  apply (proj1 (proj2 (X8_defaultProps_domain ∅)) "arcTime").
  simpl. tauto.
Defined.

(** ** Random sampler *)

Section SamplerMore.

Variables (random : nat -> Q) (min max count : Z).

Lemma sample_loop_done (fuel calls : nat) (arr : JSet.t) :
  count <= JSet.size arr ->
  sample_loop fuel random min max count calls arr = Some arr.
Proof.
  intros H. destruct fuel; simpl;
    destruct (Z.ltb_spec (JSet.size arr) count); (lia || reflexivity).
Qed.

(** One more iteration allowed does not change a result. *)
Lemma sample_loop_more (fuel calls : nat) (arr l : JSet.t) :
  sample_loop fuel random min max count calls arr = Some l ->
  sample_loop (S fuel) random min max count calls arr = Some l.
Proof.
  revert calls arr. induction fuel as [|fuel IH]; intros calls arr.
  - simpl. destruct (JSet.size arr <? count); [discriminate | auto].
  - intros H. simpl in H. change (sample_loop (S (S fuel)) random min max count calls arr)
      with (if JSet.size arr <? count
            then sample_loop (S fuel) random min max count (S calls)
                   (JSet.add (pick (random calls) min max) arr)
            else Some arr).
    destruct (JSet.size arr <? count); [now apply IH | assumption].
Qed.

Lemma genRandomNumbers_more (fuel fuel' : nat) (l : list Z) :
  (fuel <= fuel')%nat ->
  genRandomNumbers fuel random min max count = Some l ->
  genRandomNumbers fuel' random min max count = Some l.
Proof.
  intros Hle. unfold genRandomNumbers.
  destruct (sample_loop fuel random min max count 0 JSet.empty) as [s|] eqn:E;
    [| discriminate].
  intros H.
  assert (E' : sample_loop fuel' random min max count 0 JSet.empty = Some s).
  { induction Hle as [|fuel' Hle IH]; [assumption |].
    now apply sample_loop_more. }
  now rewrite E'.
Qed.

(** The loop stops at the first prefix of the draws that shows [count]
    distinct values. *)
Lemma sample_loop_first (fuel i : nat) (l : JSet.t) :
  sample_loop fuel random min max count i (added (draws random min max i))
    = Some l ->
  exists k, (i <= k <= i + fuel)%nat /\
            l = added (draws random min max k) /\
            count <= JSet.size l /\
            forall j, (i <= j < k)%nat ->
                      JSet.size (added (draws random min max j)) < count.
Proof.
  revert i. induction fuel as [|fuel IH]; intros i; simpl;
    destruct (Z.ltb_spec (JSet.size (added (draws random min max i))) count);
    try discriminate;
    try (intros [= <-]; exists i; split; [lia |]; split; [reflexivity |];
         split; [lia | intros j Hj; lia]).
  rewrite <- added_snoc, <- draws_S. intros H'.
  apply IH in H' as (k & Hk & E & Hc & Hmin).
  exists k. split; [lia |]. split; [assumption |]. split; [assumption |].
  intros j Hj. destruct (Nat.eq_dec j i) as [-> | Hne]; [assumption |].
  apply Hmin. lia.
Qed.

End SamplerMore.

Section Selection.

Context {A : Type}.

Lemma filter_from_sublist (f : A -> Z -> bool) (i : Z) (a : list A) :
  sublist (Array.filter_from f i a) a.
Proof.
  revert i. induction a as [|x a IH]; intros i; simpl; [constructor |].
  destruct (f x i); constructor; apply IH.
Qed.

Lemma filter_from_length (g : Z -> bool) (i : Z) (a : list A) :
  length (Array.filter_from (fun _ j => g j) i a) =
  length (List.filter g (List.map (fun k => i + Z.of_nat k) (seq 0 (length a)))).
Proof.
  revert i. induction a as [|x a IH]; intros i; [reflexivity |].
  cbn [Array.filter_from length seq List.map List.filter].
  replace (i + Z.of_nat 0) with i by lia.
  rewrite <- seq_shift, List.map_map.
  assert (E : List.map (fun k => i + Z.of_nat (S k)) (seq 0 (length a)) =
              List.map (fun k => (i + 1) + Z.of_nat k) (seq 0 (length a))).
  { apply List.map_ext. intros k. lia. }
  rewrite E. destruct (g i); simpl; now rewrite IH.
Qed.

(** Selecting the elements at the indices of a duplicate-free list of
    valid indices yields as many elements as there are indices. *)
Lemma select_length (indexes : list Z) (a : list A) :
  List.NoDup indexes ->
  (forall x, In x indexes -> 0 <= x <= Z.of_nat (length a) - 1) ->
  length (Array.filter (fun _ i _ => includes indexes i) a) = length indexes.
Proof.
  intros Hnd Hin. unfold Array.filter.
  rewrite (filter_from_length (includes indexes) 0 a).
  apply Permutation_length, Permutation.NoDup_Permutation;
    [apply List.NoDup_filter | assumption |].
  - generalize (seq_NoDup (length a) 0).
    induction (seq 0 (length a)) as [|k l IH]; simpl; intros H; [constructor |].
    apply NoDup_cons_iff in H as [Hk Hl]. constructor; [| auto].
    intros (k' & E & Hk')%in_map_iff. assert (k' = k) by lia. now subst.
  - intros x. rewrite filter_In, in_map_iff. unfold includes. split.
    + intros [_ (y & Hy & E)%existsb_exists]. apply Z.eqb_eq in E. now subst.
    + intros Hx. split.
      * exists (Z.to_nat x). specialize (Hin x Hx). split; [lia |].
        apply in_seq. lia.
      * apply existsb_exists. exists x. split; [assumption | apply Z.eqb_refl].
Qed.

End Selection.

Section RingRefresh.

Lemma floor_four_fifths (n : Z) :
  Math.floor (inject_Z (n * 4) / inject_Z 5) = n * 4 / 5.
Proof.
  unfold Math.floor, Qfloor, Qdiv, Qmult, Qinv, inject_Z. simpl.
  now rewrite Z.mul_1_r.
Qed.

Lemma ringsData_result (fuel : nat) (random : nat -> Q)
    (globeData rings : list Point.t) :
  unit_interval random ->
  ringsData fuel random globeData = Some rings ->
  sublist rings globeData /\
  Z.of_nat (length rings) = Z.of_nat (length globeData) * 4 / 5.
Proof.
  intros Hu. unfold ringsData, ringIndexes. rewrite floor_four_fifths.
  set (n := Z.of_nat (length globeData)).
  destruct (genRandomNumbers fuel random 0 (n - 1) (n * 4 / 5)) as [l|] eqn:E;
    [| discriminate].
  intros [= <-]. split; [apply filter_from_sublist |].
  assert (Hc : 0 <= n * 4 / 5) by (apply Z.div_pos; lia).
  destruct (Z.eq_dec n 0) as [Hn | Hn].
  - assert (length globeData = 0%nat) as Hl by lia.
    destruct globeData; [| discriminate Hl]. now rewrite Hn.
  - apply genRandomNumbers_result in E as (Hl & Hnd & Hr & _);
      [| assumption | lia | assumption].
    rewrite select_length; [assumption | assumption |].
    intros x Hx. apply Hr in Hx. lia.
Qed.

Lemma ringsData_returns (random : nat -> Q) (globeData : list Point.t) :
  covers random 0 (Z.of_nat (length globeData) - 1) ->
  exists fuel rings, ringsData fuel random globeData = Some rings.
Proof.
  intros Hcov. unfold ringsData, ringIndexes. rewrite floor_four_fifths.
  set (n := Z.of_nat (length globeData)) in *.
  destruct (Z.eq_dec n 0) as [Hn | Hn].
  - exists 0%nat. rewrite Hn. simpl. eauto.
  - destruct (genRandomNumbers_returns random 0 (n - 1) (n * 4 / 5))
      as (fuel & l & E); [lia | assumption | |].
    + assert (n * 4 / 5 <= n); [| lia].
      apply Z.div_le_upper_bound; lia.
    + exists fuel. rewrite E. simpl. eauto.
Qed.

End RingRefresh.







(** ** Colour parser *)

Section ColourParserMore.

Lemma is_hex_form_3_true (s : string) :
  is_hex_form 3 s = true ->
  exists a b c, three_hex (strip_hash s) = Some (a, b, c).
Proof.
  unfold is_hex_form.
  destruct (strip_hash s) as [|a1 [|a2 [|a3 [|a4 t]]]]; simpl; try discriminate.
  rewrite andb_true_r, andb_assoc. intros ->. eauto.
Qed.

Lemma is_hex_form_6_true (s : string) :
  is_hex_form 6 s = true ->
  exists a b c d e f, six_hex (strip_hash s) = Some ((a, b), (c, d), (e, f)).
Proof.
  unfold is_hex_form.
  destruct (strip_hash s) as [|a1 [|a2 [|a3 [|a4 [|a5 [|a6 [|a7 t]]]]]]]; simpl;
    try discriminate.
  rewrite andb_true_r, !andb_assoc. intros ->. eauto 10.
Qed.

(** Different bytes are different numbers. *)
Lemma of_Z_byte_inj (x y : Z) :
  0 <= x <= 255 -> 0 <= y <= 255 -> Number.of_Z x = Number.of_Z y -> x = y.
Proof.
  intros Hx Hy E.
  destruct (of_Z_byte_value x Hx) as (qx & Ex & Hqx).
  destruct (of_Z_byte_value y Hy) as (qy & Ey & Hqy).
  assert (qy = qx) by congruence. subst qy.
  apply inject_Z_injective.
  apply Qeq_trans with qx; [apply Qeq_sym; exact Hqx | exact Hqy].
Qed.

Lemma rgb_of_bytes_inj (r g b r' g' b' : Z) :
  0 <= r <= 255 -> 0 <= g <= 255 -> 0 <= b <= 255 ->
  0 <= r' <= 255 -> 0 <= g' <= 255 -> 0 <= b' <= 255 ->
  rgb_of_bytes r g b = rgb_of_bytes r' g' b' -> r = r' /\ g = g' /\ b = b'.
Proof.
  intros Hr Hg Hb Hr' Hg' Hb' [= E1 E2 E3]. auto using of_Z_byte_inj.
Qed.

(** The digit of value 15 is [f], in either case. *)
Lemma hexValue_15 (a : ascii) :
  isHexDigit a = true -> hexValue a = 15 -> Char.toLowerCase a = "f"%char.
Proof.
  intros Ha Hv.
  assert (H : implb (isHexDigit a && (hexValue a =? 15))
                (Ascii.eqb (Char.toLowerCase a) "f") = true).
  { clear. revert a. apply forall_chars. vm_compute. reflexivity. }
  rewrite Ha, Hv in H. simpl in H. now apply Ascii.eqb_eq.
Qed.

Lemma byte_of_255 (a b : ascii) :
  isHexDigit a = true -> isHexDigit b = true -> byte_of a b = 255 ->
  Char.toLowerCase a = "f"%char /\ Char.toLowerCase b = "f"%char.
Proof.
  intros Ha Hb H.
  pose proof (hexValue_range a Ha). pose proof (hexValue_range b Hb).
  unfold byte_of in H. split; apply hexValue_15; auto; lia.
Qed.

Lemma digit_of_spec (z : Z) :
  0 <= z <= 15 -> isHexDigit (digit_of z) = true /\ hexValue (digit_of z) = z.
Proof.
  intros Hz.
  assert (H : forallb (fun n => isHexDigit (digit_of (Z.of_nat n)) &&
                                (hexValue (digit_of (Z.of_nat n)) =? Z.of_nat n))
                (seq 0 16) = true) by (vm_compute; reflexivity).
  rewrite forallb_forall in H. specialize (H (Z.to_nat z)).
  rewrite Z2Nat.id in H by lia.
  destruct (andb_prop _ _ (H ltac:(apply in_seq; lia))) as [H1 H2].
  split; [assumption | now apply Z.eqb_eq].
Qed.

Lemma hexToRgb_six (a b c d e f : ascii) :
  isHexDigit a = true -> isHexDigit b = true -> isHexDigit c = true ->
  isHexDigit d = true -> isHexDigit e = true -> isHexDigit f = true ->
  hexToRgb (String "#" (String a (String b (String c (String d (String e (String f "")))))))
  = rgb_of_bytes (byte_of a b) (byte_of c d) (byte_of e f).
Proof.
  intros Ha Hb Hc Hd He Hf. rewrite hexToRgb_digits.
  cbn -[isHexDigit]. now rewrite Ha, Hb, Hc, Hd, He, Hf.
Qed.

End ColourParserMore.



(** X13. The fallback is returned exactly when the input has neither hex
    form or denotes white itself ([fff] or [ffffff] after the optional [#],
    in any case): the result does not tell a failed parse from white. *)
Theorem X13_fallback_exactly (s : string) :
  hexToRgb s = fallback <->
  (is_hex_form 3 s = false /\ is_hex_form 6 s = false) \/
  toLowerCase (strip_hash s) = "fff" \/
  toLowerCase (strip_hash s) = "ffffff".
Proof.
  split.
  - intros H. destruct (is_hex_form 3 s) eqn:E3.
    + right. left.
      apply is_hex_form_3_true in E3 as (a & b & c & E).
      rewrite hexToRgb_digits, E in H.
      apply three_hex_Some in E as (-> & Ha & Hb & Hc).
      apply rgb_of_bytes_inj in H as (Hr & Hg & Hb'); auto using byte_of_range; try lia.
      apply byte_of_255 in Hr as [Ea _]; auto.
      apply byte_of_255 in Hg as [Eb _]; auto.
      apply byte_of_255 in Hb' as [Ec _]; auto.
      unfold toLowerCase. cbn [string_map]. now rewrite Ea, Eb, Ec.
    + destruct (is_hex_form 6 s) eqn:E6; [| now left].
      right. right.
      pose proof (is_hex_form_3 s E3) as N3.
      apply is_hex_form_6_true in E6 as (a & b & c & d & e & f & E).
      rewrite hexToRgb_digits, N3, E in H.
      apply six_hex_Some in E as (-> & [Ha Hb] & [Hc Hd] & [He Hf]).
      apply rgb_of_bytes_inj in H as (Hr & Hg & Hb'); auto using byte_of_range; try lia.
      apply byte_of_255 in Hr as [Ea Eb]; auto.
      apply byte_of_255 in Hg as [Ec Ed]; auto.
      apply byte_of_255 in Hb' as [Ee Ef]; auto.
      unfold toLowerCase. cbn [string_map]. now rewrite Ea, Eb, Ec, Ed, Ee, Ef.
  - intros [[H3 H6] | [H | H]].
    + now apply hexToRgb_no_form.
    + rewrite <- hexToRgb_toLowerCase, hexToRgb_digits, strip_hash_toLowerCase, H.
      vm_compute. reflexivity.
    + rewrite <- hexToRgb_toLowerCase, hexToRgb_digits, strip_hash_toLowerCase, H.
      vm_compute. reflexivity.
Qed.

(** X14. Every colour with byte channels is written by some string in the
    six-digit form: [hexToRgb] reaches every triple of integers between 0
    and 255. *)
Theorem X14_every_byte_triple_reached (r g b : Z) :
  0 <= r <= 255 -> 0 <= g <= 255 -> 0 <= b <= 255 ->
  exists s, is_hex_form 6 s = true /\ hexToRgb s = rgb_of_bytes r g b.
Proof.
  intros Hr Hg Hb.
  assert (D : forall z, 0 <= z <= 255 ->
                isHexDigit (digit_of (z / 16)) = true /\
                isHexDigit (digit_of (z mod 16)) = true /\
                byte_of (digit_of (z / 16)) (digit_of (z mod 16)) = z).
  { intros z Hz.
    assert (H1 : 0 <= z / 16 <= 15).
    { split; [apply Z.div_pos; lia |].
      assert (z / 16 < 16) by (apply Z.div_lt_upper_bound; lia). lia. }
    assert (H2 : 0 <= z mod 16 <= 15)
      by (pose proof (Z.mod_pos_bound z 16 ltac:(lia)); lia).
    destruct (digit_of_spec _ H1) as [A1 A2].
    destruct (digit_of_spec _ H2) as [B1 B2].
    split; [assumption |]. split; [assumption |].
    unfold byte_of. rewrite A2, B2.
    pose proof (Z.div_mod z 16 ltac:(lia)). lia. }
  destruct (D r Hr) as (R1 & R2 & R3).
  destruct (D g Hg) as (G1 & G2 & G3).
  destruct (D b Hb) as (B1 & B2 & B3).
  eexists. split.
  2: { rewrite <- R3, <- G3, <- B3 at 1. symmetry.
       apply (eq_sym (hexToRgb_six _ _ _ _ _ _ R1 R2 G1 G2 B1 B2)). }
  unfold is_hex_form. cbn -[isHexDigit]. now rewrite R1, R2, G1, G2, B1, B2.
Qed.

Lemma X14_witness :
  exists s, is_hex_form 6 s = true /\ hexToRgb s = rgb_of_bytes 147 112 219.
Proof. apply X14_every_byte_triple_reached; lia. Defined.

(** ** Animation set-up *)

Section AnimationMore.

Lemma at_index_three {A : Type} (x y z : A) (i : Z) :
  0 <= i <= 2 -> exists v, at_index [x; y; z] i = Some v /\ In v [x; y; z].
Proof.
  intros Hi. assert (H : i = 0 \/ i = 1 \/ i = 2) by lia.
  destruct H as [-> | [-> | ->]]; eexists; (split; [reflexivity |]); simpl; auto.
Qed.

Lemma floor_times_three (u : Q) :
  (0 <= u)%Q -> (u < 1)%Q -> 0 <= Math.floor (u * inject_Z 3) <= 2.
Proof.
  intros H0 H1. pose proof (pick_range u 0 2 H0 H1 ltac:(lia)) as H.
  unfold pick in H. change (2 - 0 + 1) with 3 in H. lia.
Qed.

End AnimationMore.

(** X15. The altitude given to an arc is never NaN: it is [arcAlt] itself
    (up to the sign of zero) when [arcAlt] is a number, and 0 when [arcAlt]
    is NaN. *)
Theorem X15_arcAltitude_never_NaN (d : Position.t) :
  Number.isNaN (arcAltitude d) = false /\
  (Number.isNaN (Position.arcAlt d) = false ->
   Number.strict_eq (arcAltitude d) (Position.arcAlt d) = true) /\
  (Number.isNaN (Position.arcAlt d) = true -> arcAltitude d = Number.of_Z 0).
Proof.
  unfold arcAltitude, or_else.
  destruct (Position.arcAlt d) as [s | s | | s m e]; cbn [truthy Number.isNaN];
    (split; [reflexivity |]); (split; [| try discriminate; reflexivity]);
    try discriminate; intros _.
  - reflexivity.
  - now apply strict_eq_refl.
  - now apply strict_eq_refl.
Qed.

Lemma X15_witness :
  Number.strict_eq
    (arcAltitude (Position.mk (Number.of_Z 0) (Number.of_Z 10) (Number.of_Z 20)
                    (Number.of_Z 30) (Number.of_Z 40) (Number.decimal 3 1) "#abc"))
    (Number.decimal 3 1) = true.
Proof.
  apply (proj1 (proj2 (X15_arcAltitude_never_NaN
                         (Position.mk (Number.of_Z 0) (Number.of_Z 10) (Number.of_Z 20)
                            (Number.of_Z 30) (Number.of_Z 40) (Number.decimal 3 1)
                            "#abc")))).
  vm_compute. reflexivity.
Defined.




